(** * Heston calibration script: loss evaluator, seeding, callbacks, checks

    Shallow embedding of [heston_calibration.py].

    Numbers.  The script computes with IEEE binary64 values (Python [float],
    NumPy [float64]).  They are modelled by [F]: an exact rational in
    canonical form (so that [=] is numerical equality), one of the two
    infinities, or NaN.  Rounding and the sign of zero are abstracted;
    the special values, on which the early-stopping callback relies
    ([state["best"]] starts at [np.inf]), follow IEEE 754, and the one
    Python-float operation of the script that can raise on overflow
    ([iv_atm_guess ** 2]) does so in the model too.

    Collaborators.  [hp.vanilla_price] and [np.exp] come from modules that are
    not part of the script; they are Section variables.  The columns that the
    script fills with [bs.price] and [bs.vega] are fields of the input rows. *)

From Stdlib Require Import QArith Qabs Qcanon Qcabs ZArith List Sorted Bool Lia Lqa PeanoNat.
Import ListNotations.

Local Open Scope Qc_scope.

(** ** Floating-point values *)

Inductive F : Type :=
| Fin (q : Qc)
| PInf
| NInf
| NaN.

Definition Qclt_bool (x y : Qc) : bool :=
  match x ?= y with Lt => true | _ => false end.

Definition sgn (q : Qc) : comparison := 0 ?= q.

Definition is_nan (a : F) : bool :=
  match a with NaN => true | _ => false end.

Definition is_finite (a : F) : bool :=
  match a with Fin _ => true | _ => false end.

Definition fneg (a : F) : F :=
  match a with
  | Fin q => Fin (- q)
  | PInf => NInf
  | NInf => PInf
  | NaN => NaN
  end.

Definition fabs (a : F) : F :=
  match a with
  | Fin q => Fin (Qcabs q)
  | PInf | NInf => PInf
  | NaN => NaN
  end.

Definition fadd (a b : F) : F :=
  match a, b with
  | NaN, _ | _, NaN => NaN
  | Fin x, Fin y => Fin (x + y)
  | PInf, NInf | NInf, PInf => NaN
  | PInf, _ | _, PInf => PInf
  | NInf, _ | _, NInf => NInf
  end.

Definition fsub (a b : F) : F := fadd a (fneg b).

(** [inf_signed c] is the infinity of sign [c]; a zero sign gives NaN
    (infinity times zero). *)
Definition inf_signed (c : comparison) : F :=
  match c with Lt => PInf | Gt => NInf | Eq => NaN end.

Definition flip (c : comparison) : comparison := CompOpp c.

Definition fmul (a b : F) : F :=
  match a, b with
  | NaN, _ | _, NaN => NaN
  | Fin x, Fin y => Fin (x * y)
  | PInf, Fin y | Fin y, PInf => inf_signed (sgn y)
  | NInf, Fin y | Fin y, NInf => inf_signed (flip (sgn y))
  | PInf, PInf | NInf, NInf => PInf
  | PInf, NInf | NInf, PInf => NInf
  end.

(** NumPy division: a finite non-zero value over zero is an infinity, zero
    over zero is NaN.  (Python's scalar [/] raises on a zero divisor instead;
    the one scalar division of the script, in [callback_ga], has a divisor
    that is never zero, see [py_max_floor_nonzero].) *)
Definition fdiv (a b : F) : F :=
  match a, b with
  | NaN, _ | _, NaN => NaN
  | Fin x, Fin y =>
      if Qc_eq_bool y 0 then inf_signed (sgn x) else Fin (x / y)
  | Fin _, PInf | Fin _, NInf => Fin 0
  | PInf, Fin y => if Qclt_bool y 0 then NInf else PInf
  | NInf, Fin y => if Qclt_bool y 0 then PInf else NInf
  | PInf, PInf | PInf, NInf | NInf, PInf | NInf, NInf => NaN
  end.

(** [x ** 2] on an array *)
Definition fsquare (a : F) : F := fmul a a.

(** [x ** 2] on a Python float: it raises [OverflowError] when the square of
    a finite [x] leaves the binary64 range, that is when it reaches
    [2^1024 - 2^970], the point from which rounding to nearest gives no
    finite value. *)
Definition float_overflow : Qc := Q2Qc (inject_Z (2 ^ 1024 - 2 ^ 970)).

Definition py_pow2 (a : F) : option F :=
  match a with
  | Fin q =>
      if Qclt_bool (q * q) float_overflow then Some (Fin (q * q)) else None
  | PInf | NInf => Some PInf
  | NaN => Some NaN
  end.

(** Comparisons: every comparison with NaN is false. *)
Definition flt (a b : F) : bool :=
  match a, b with
  | NaN, _ | _, NaN => false
  | Fin x, Fin y => Qclt_bool x y
  | NInf, NInf | PInf, _ => false
  | NInf, _ => true
  | Fin _, PInf => true
  | Fin _, NInf => false
  end.

Definition fgt (a b : F) : bool := flt b a.

Definition feq (a b : F) : bool :=
  match a, b with
  | Fin x, Fin y => Qc_eq_bool x y
  | PInf, PInf | NInf, NInf => true
  | _, _ => false
  end.

Definition fle (a b : F) : bool := flt a b || feq a b.
Definition fge (a b : F) : bool := fle b a.

(** Python's builtin [max(a, b)]: the first of the largest arguments, where
    "larger" is decided by [>]; a NaN second argument never replaces the
    first, a NaN first argument is never replaced. *)
Definition py_max (a b : F) : F := if fgt b a then b else a.

(** [np.maximum] on two scalars: NaN if either is NaN. *)
Definition np_maximum1 (a b : F) : F :=
  match a, b with
  | NaN, _ | _, NaN => NaN
  | _, _ => if flt a b then b else a
  end.

(** [np.max] of a one-dimensional array: raises on an empty array ([None]),
    propagates NaN. *)
Definition np_max (l : list F) : option F :=
  match l with
  | [] => None
  | a :: t => Some (fold_left np_maximum1 t a)
  end.

Definition np_sum (l : list F) : F := fold_left fadd l (Fin 0).

Definition of_nat (n : nat) : F := Fin (Q2Qc (inject_Z (Z.of_nat n))).

(** [np.mean]: the sum over the number of elements (NaN on an empty array). *)
Definition np_mean (l : list F) : F := fdiv (np_sum l) (of_nat (length l)).

(** Decimal literals of the script. *)
Definition lit_1e_12 : F := Fin (Q2Qc (1 # 1000000000000)).
Definition lit_1e_10 : F := Fin (Q2Qc (1 # 10000000000)).
Definition lit_1e_6 : F := Fin (Q2Qc (1 # 1000000)).
Definition lit_1e_5 : F := Fin (Q2Qc (1 # 100000)).
Definition lit_1e_4 : F := Fin (Q2Qc (1 # 10000)).

Local Close Scope Qc_scope.
Local Open Scope nat_scope.

(** "Not below zero": a non-negative number, +infinity or NaN. *)
Definition not_negative (a : F) : Prop := flt a (Fin (Q2Qc 0)) = false.

(** ** NumPy helpers on one-dimensional arrays *)

(** Failure (a raised exception) is [None]. *)
Notation "'try' x := e 'in' k" :=
  (match e with Some x => k | None => None end)
  (at level 10, x name, e at level 100, k at level 200).

(** Broadcasting of a binary operation over two one-dimensional arrays:
    equal shapes go elementwise, a one-element array is stretched, any other
    pair of shapes raises. *)
Definition broadcast2 (f : F -> F -> F) (a b : list F) : option (list F) :=
  if length a =? length b then Some (map (fun p => f (fst p) (snd p)) (combine a b))
  else match a, b with
       | [x], _ => Some (map (f x) b)
       | _, [y] => Some (map (fun x => f x y) a)
       | _, _ => None
       end.

(** [np.where(mask)[0]]: the positions at which the mask holds. *)
Fixpoint where_from (i : nat) (mask : list bool) : list nat :=
  match mask with
  | [] => []
  | b :: t => (if b then [i] else []) ++ where_from (S i) t
  end.

Definition np_where (mask : list bool) : list nat := where_from 0 mask.

(** [a[idx]] with an integer index array; an index out of range raises. *)
Fixpoint fancy_get {A : Type} (a : list A) (idx : list nat) : option (list A) :=
  match idx with
  | [] => Some []
  | i :: t => try x := nth_error a i in try r := fancy_get a t in Some (x :: r)
  end.

Fixpoint set_nth {A : Type} (i : nat) (x : A) (a : list A) : option (list A) :=
  match a, i with
  | [], _ => None
  | _ :: t, O => Some (x :: t)
  | y :: t, S j => try r := set_nth j x t in Some (y :: r)
  end.

Fixpoint scatter {A : Type} (a : list A) (iv : list (nat * A)) : option (list A) :=
  match iv with
  | [] => Some a
  | (i, x) :: t => try a' := set_nth i x a in scatter a' t
  end.

(** The right-hand side of [a[idx] = v] as [a[idx]] receives it: [v] itself
    when the shapes agree, a one-element [v] repeated, otherwise an error. *)
Definition broadcast_to {A : Type} (n : nat) (v : list A) : option (list A) :=
  if length v =? n then Some v
  else match v with
       | [x] => Some (repeat x n)
       | _ => None
       end.

(** [a[idx] = v] *)
Definition fancy_set {A : Type} (a : list A) (idx : list nat) (v : list A)
  : option (list A) :=
  try v' := broadcast_to (length idx) v in scatter a (combine idx v').

(** [np.unique]: the distinct values in increasing order, NaN last and kept
    once. *)
Definition same_value (a b : F) : bool := feq a b || (is_nan a && is_nan b).

Definition sorts_before (a b : F) : bool := flt a b || (negb (is_nan a) && is_nan b).

Fixpoint insert_unique (a : F) (l : list F) : list F :=
  match l with
  | [] => [a]
  | b :: t =>
      if same_value a b then l
      else if sorts_before a b then a :: l
      else b :: insert_unique a t
  end.

Definition np_unique (l : list F) : list F := fold_right insert_unique [] l.

(** Reading a whole array whose cells may still be unwritten. *)
Fixpoint all_written {A : Type} (a : list (option A)) : option (list A) :=
  match a with
  | [] => Some []
  | c :: t => try x := c in try r := all_written t in Some (x :: r)
  end.

(** The elements of [a] picked by a boolean mask, and [a] with the picked
    cells overwritten, in order, by the elements of [v]: what [a[idx]] and
    [a[idx] = v] amount to when [idx] comes from [np.where]. *)
Fixpoint masked {A : Type} (mask : list bool) (a : list A) : list A :=
  match mask, a with
  | b :: m, x :: t => if b then x :: masked m t else masked m t
  | _, _ => []
  end.

Fixpoint merge {A : Type} (mask : list bool) (a v : list A) : list A :=
  match mask, a with
  | true :: m, y :: t =>
      match v with
      | x :: v' => x :: merge m t v'
      | [] => y :: merge m t []
      end
  | false :: m, y :: t => y :: merge m t v
  | _, _ => a
  end.

(** ** Data model *)

Inductive option_type : Type := call | put.

(** A row of [df] as it stands after the two market-price columns are
    filled (line 147), together with its Black-Scholes vega. *)
Record row : Type := mkRow {
  r_IV : F;
  r_To_expiry : F;
  r_Strike : F;
  r_Risk_Free : F;
  r_Impl_Yld : F;
  r_Moneyness : F;
  r_Market_call_price : F;
  r_Market_put_price : F;
  r_Vega : F
}.

(** A row of [df] as the loss function, the seeding and the callbacks see
    it: the columns ['Option type'] and ['Market price'] are added. *)
Record quote : Type := mkQuote {
  IV : F;
  To_expiry : F;
  Strike : F;
  Risk_Free : F;
  Impl_Yld : F;
  Moneyness : F;
  Market_call_price : F;
  Market_put_price : F;
  Option_type : option_type;
  Market_price : F;
  Vega : F
}.

Definition DataFrame : Type := list quote.

(** What a caller may pass in the third and fourth positions of
    [loss_function]: a float, an array of floats, a Series of floats, or the tuple
    [option_args = (S0, df['Risk Free'], df['Impl (Yld)'])]. *)
Inductive pyarg : Type :=
| ArgFloat (x : F)
| ArgArray (a : list F)
| ArgSeries (a : list F)
| ArgOptionArgs (spot : F) (r q : list F).

(** One call of [hp.vanilla_price], as the arguments it receives. *)
Record oracle_call : Type := mkCall {
  call_T : F;
  call_K : list F;
  call_option_params : F * F * F;
  call_heston_params : list F;
  call_option_type : list option_type;
  call_N : option Z
}.

(** [np.max] and [np.mean] applied to a pandas Series call the Series'
    own [max] and [mean], which skip NaN (and give NaN when nothing is
    left, also on an empty Series). *)
Definition dropna (l : list F) : list F := filter (fun v => negb (is_nan v)) l.

Definition series_max (l : list F) : F :=
  match np_max (dropna l) with Some m => m | None => NaN end.

Definition series_mean (l : list F) : F := np_mean (dropna l).

(** [Series.idxmin()]: the label of the first smallest value, NaN skipped;
    raises when no value is left.  After [reset_index] the labels are the
    positions. *)
Fixpoint idxmin_from (i : nat) (l : list F) (acc : option (nat * F)) : option (nat * F) :=
  match l with
  | [] => acc
  | v :: t =>
      let acc' :=
        if is_nan v then acc
        else match acc with
             | None => Some (i, v)
             | Some (_, m) => if flt v m then Some (i, v) else acc
             end in
      idxmin_from (S i) t acc'
  end.

Definition idxmin (l : list F) : option nat := option_map fst (idxmin_from 0 l None).

(** What the accumulator of [idxmin_from] is for the values [s] seen so
    far: nothing when all are NaN, else the position of a value that no
    value seen is below. *)
Definition idxmin_good (s : list F) (acc : option (nat * F)) : Prop :=
  match acc with
  | None => forall v, In v s -> is_nan v = true
  | Some (i, m) =>
      nth_error s i = Some m /\ is_nan m = false
      /\ forall v, In v s -> flt v m = false
  end.

(** ... and every value before that position is NaN or strictly above
    it. *)
Definition idxmin_first (s : list F) (acc : option (nat * F)) : Prop :=
  match acc with
  | None => True
  | Some (i, m) =>
      forall j w, j < i -> nth_error s j = Some w ->
                  is_nan w = true \/ flt m w = true
  end.

(** A [for] loop whose body may raise. *)
Fixpoint for_each {S A : Type} (body : S -> A -> option S) (st : S) (l : list A)
  : option S :=
  match l with
  | [] => Some st
  | a :: t => try st' := body st a in for_each body st' t
  end.

(** [df.apply(f, axis=1)] with an [f] that may raise. *)
Fixpoint apply_rows {A B : Type} (f : A -> option B) (l : list A) : option (list B) :=
  match l with
  | [] => Some []
  | a :: t => try b := f a in try r := apply_rows f t in Some (b :: r)
  end.

(** ** Early-stopping hyperparameters and callback state *)

Record hyper : Type := mkHyper {
  PATIENCE_CB : nat;
  MIN_REL_IMPROV : F;
  MIN_ABS_IMPROV : F;
  MAX_SECONDS_CB : option F
}.

(** The values the script sets (lines 243-246). *)
Definition script_hyper : hyper :=
  {| PATIENCE_CB := 8;
     MIN_REL_IMPROV := lit_1e_5;
     MIN_ABS_IMPROV := lit_1e_6;
     MAX_SECONDS_CB := None |}.

(** The dictionary [state]. *)
Record state : Type := mkState {
  best : F;
  best_x : option (list F);
  iters : nat;
  stale : nat
}.

(** [{"best": np.inf, "best_x": None, "iters": 0, "stale": 0}] *)
Definition state_init : state :=
  {| best := PInf; best_x := None; iters := 0; stale := 0 |}.

(** The line a callback prints. *)
Record progress : Type := mkProgress {
  p_iteration : nat;
  p_elapsed : F;
  p_loss : F;
  p_stale : option nat;
  p_params : list F
}.

(** What the accepting and the rejecting branch keep: either nothing was
    ever accepted, the best is still +infinity and the stale counter equals
    the iteration count; or the best is below +infinity and the stale
    counter is below the iteration count. *)
Definition tracking_invariant (st : state) : Prop :=
  (best st = PInf /\ stale st = iters st)
  \/ (flt (best st) PInf = true /\ stale st < iters st).

(** What the script prints and which optimizer it enters, in order. *)
Inductive event : Type :=
| print_parity_market (ok : bool)
| print_batch_size (n : nat)
| print_strike_minus_spot (d : list F)
| print_parity_seed (ok : bool) (max_abs_diff : F)
| print_initial_params (x0 : list F)
| start_global
| global_completed
| start_local
| print_optimized (optimal_heston : list F) (optimal_loss : F)
| print_feller (ok : bool).

(** Parameter bounds (lines 314-321). *)
Definition bounds : list (F * F) :=
  [ (lit_1e_4, Fin (Q2Qc 1));
    (lit_1e_4, Fin (Q2Qc 15));
    (lit_1e_4, Fin (Q2Qc 1));
    (lit_1e_4, Fin (Q2Qc 2));
    (Fin (Q2Qc (-9 # 10)), Fin (Q2Qc (1 # 10)));
    (Fin (Q2Qc 0), Fin (Q2Qc 0)) ].

(** A vector lies in a box when it has one coordinate per bound and each
    coordinate is between its two bounds, ends included. *)
Definition in_box (x : list F) (b : list (F * F)) : bool :=
  (length x =? length b)
  && forallb (fun p => fle (fst (snd p)) (fst p) && fle (fst p) (snd (snd p)))
       (combine x b).

(** ** The script *)

Section Script.

(** Spot, read from the workbook by [conv.adapt_excel]. *)
Variable S0 : F.

(** [hp.vanilla_price(T, K, option_params, heston_params, option_type, N)]:
    one maturity, a batch of strikes and of sides, one price per strike.
    A call with a scalar strike and side is the call on the one-element
    batch; [N] is [None] where the script leaves it out. *)
Variable vanilla_price :
  F -> list F -> F * F * F -> list F -> list option_type -> option Z -> list F.

Variable np_exp : F -> F.

(** *** Loss function (lines 198-234) *)

(** The array [model_prices] starts as [np.empty_like(market_prices)]: its
    cells hold nothing meaningful until written, which [None] stands for.
    [oracle_calls] records the calls made to [hp.vanilla_price]. *)
Record loop_state : Type := mkLoop {
  model_prices : list (option F);
  oracle_calls : list oracle_call
}.

(** The body of [for Tj in uniq_T]. *)
Definition group_step (heston_params T K r q : list F)
    (opt_type : list option_type) (st : loop_state) (Tj : F) : option loop_state :=
  let idx := np_where (map (fun t => feq t Tj) T) in
  try Kj := fancy_get K idx in
  try r_idx := fancy_get r idx in
  try rj := nth_error r_idx 0 in
  try q_idx := fancy_get q idx in
  try qj := nth_error q_idx 0 in
  try optj := fancy_get opt_type idx in
  let pj := vanilla_price Tj Kj (S0, rj, qj) heston_params optj (Some 185%Z) in
  try mp := fancy_set (model_prices st) idx (map Some pj) in
  Some {| model_prices := mp;
          oracle_calls :=
            oracle_calls st
            ++ [mkCall Tj Kj (S0, rj, qj) heston_params optj (Some 185%Z)] |}.

(** [np.maximum(df["Vega"].to_numpy(), vega_floor)]: the values, and whether
    the result is a Series (it is when the floor is one).  Against a Series
    the result takes the Series' index: the shapes agree, or the one vega of
    a one-row table is stretched over the Series; a Series shorter or longer
    than a table of several rows raises. *)
Definition floored_vega (df : DataFrame) (vega_floor : pyarg)
  : option (list F * bool) :=
  match vega_floor with
  | ArgFloat x => Some (map (fun v => np_maximum1 v x) (map Vega df), false)
  | ArgArray b =>
      try v := broadcast2 np_maximum1 (map Vega df) b in Some (v, false)
  | ArgSeries b =>
      if length b =? length df
      then Some (map (fun p => np_maximum1 (fst p) (snd p)) (combine (map Vega df) b), true)
      else match map Vega df with
           | [v] => Some (map (np_maximum1 v) b, true)
           | _ => None
           end
  | ArgOptionArgs _ _ _ => None
  end.

(** [loss_function] with the calls it makes to the pricer. *)
Definition loss_function_run (heston_params : list F) (df : DataFrame)
    (market_prices vega_floor : pyarg) : option (F * list oracle_call) :=
  let T := map To_expiry df in
  let K := map Strike df in
  let r := map Risk_Free df in
  let q := map Impl_Yld df in
  let market_prices := map Market_price df in
  try vega := floored_vega df vega_floor in
  let opt_type := map Option_type df in
  let model_prices0 := map (fun _ => @None F) market_prices in
  let uniq_T := np_unique T in
  try st := for_each (group_step heston_params T K r q opt_type)
              {| model_prices := model_prices0; oracle_calls := [] |} uniq_T in
  try model := all_written (model_prices st) in
  try diff := broadcast2 fsub market_prices model in
  try ratio := broadcast2 fdiv diff (fst vega) in
  let sq := map fsquare ratio in
  Some (if snd vega then series_mean sq else np_mean sq, oracle_calls st).

Definition loss_function (heston_params : list F) (df : DataFrame)
    (market_prices vega_floor : pyarg) : option F :=
  option_map fst (loss_function_run heston_params df market_prices vega_floor).

(** A call that leaves [vega_floor] out. *)
Definition loss_function_default (heston_params : list F) (df : DataFrame)
    (market_prices : pyarg) : option F :=
  loss_function heston_params df market_prices (ArgFloat lit_1e_12).

(** *** The callers' arguments (lines 103, 249) *)

Definition option_args (df : DataFrame) : pyarg :=
  ArgOptionArgs S0 (map Risk_Free df) (map Impl_Yld df).

Definition mkt_arr (df : DataFrame) : list F := map Market_price df.

(** The objective as [differential_evolution] and [minimize] evaluate it:
    [loss_function(x, *args)] with [args = (df, option_args, mkt_arr)]. *)
Definition objective (df : DataFrame) (x : list F) : option F :=
  loss_function x df (option_args df) (ArgArray (mkt_arr df)).

(** *** Differential-evolution callback (lines 253-282) *)

Definition improved_test (h : hyper) (prev cur : F) : bool :=
  let rel_impr := fdiv (fsub prev cur) (py_max (fabs prev) lit_1e_12) in
  let abs_impr := fsub prev cur in
  flt cur prev && (fgt rel_impr (MIN_REL_IMPROV h) || fgt abs_impr (MIN_ABS_IMPROV h)).

Definition stop_test (h : hyper) (elapsed : F) (st : state) : bool :=
  if match MAX_SECONDS_CB h with
     | Some budget => fge elapsed budget
     | None => false
     end
  then true
  else if negb (PATIENCE_CB h =? 0) && (PATIENCE_CB h <=? stale st)
  then true
  else false.

(** The callback once [cur] is known; [elapsed] is the clock reading
    [(datetime.now() - init_time).total_seconds()]. *)
Definition callback_ga_body (h : hyper) (xk : list F) (cur elapsed : F) (st : state)
  : state * progress * bool :=
  let st1 := {| best := best st; best_x := best_x st;
                iters := iters st + 1; stale := stale st |} in
  let prev := best st1 in
  let improved := improved_test h prev cur in
  let st2 :=
    if improved
    then {| best := cur; best_x := best_x st1; iters := iters st1; stale := 0 |}
    else {| best := best st1; best_x := best_x st1; iters := iters st1;
            stale := stale st1 + 1 |} in
  (st2,
   {| p_iteration := iters st2; p_elapsed := elapsed; p_loss := cur;
      p_stale := Some (stale st2); p_params := xk |},
   stop_test h elapsed st2).

Definition callback_ga (h : hyper) (df : DataFrame) (xk : list F) (elapsed : F)
    (st : state) : option (state * progress * bool) :=
  try cur := loss_function xk df (option_args df) (ArgArray (mkt_arr df)) in
  Some (callback_ga_body h xk cur elapsed st).

(** Feeding the callback a sequence of candidates, each with its loss and
    its clock reading: the final state and the stop signal of every
    invocation. *)
Fixpoint feed (h : hyper) (st : state) (inputs : list (list F * F * F))
  : state * list bool :=
  match inputs with
  | [] => (st, [])
  | (xk, cur, elapsed) :: t =>
      let '(st', _, stop) := callback_ga_body h xk cur elapsed st in
      let '(st'', stops) := feed h st' t in
      (st'', stop :: stops)
  end.

(** The loss of one fed invocation. *)
Definition loss_of (i : list F * F * F) : F := snd (fst i).

(** *** L-BFGS-B callback (lines 289-293) *)

Definition callback (df : DataFrame) (params : list F) (elapsed : F)
    (loss_history : list F) : option (list F * progress) :=
  try current_loss :=
    loss_function params df (option_args df) (ArgSeries (map Market_price df)) in
  let loss_history' := loss_history ++ [current_loss] in
  Some (loss_history',
        {| p_iteration := length loss_history'; p_elapsed := elapsed;
           p_loss := current_loss; p_stale := None; p_params := params |}).

(** *** Row-by-row reference for the loss *)

(** The aggregation of [loss_function] (lines 210 and 233) for given model
    prices. *)
Definition aggregate (df : DataFrame) (model : list F) (vega_floor : pyarg)
  : option F :=
  try vega := floored_vega df vega_floor in
  try diff := broadcast2 fsub (map Market_price df) model in
  try ratio := broadcast2 fdiv diff (fst vega) in
  let sq := map fsquare ratio in
  Some (if snd vega then series_mean sq else np_mean sq).




(** The first row of the maturity group of [t]: the row whose rate and
    yield [loss_function] uses for the whole group. *)
Definition representative (df : DataFrame) (t : F) : option quote :=
  find (fun qt => feq (To_expiry qt) t) df.

(** The formula of the loss with a scalar floor: the mean over the quotes
    of [((market_price - model_price) / max(vega, floor)) ** 2]. *)
Definition weighted_mse (floor : F) (df : DataFrame) (model : list F) : F :=
  np_mean
    (map (fun p => fsquare (fdiv (fsub (Market_price (fst p)) (snd p))
                                 (np_maximum1 (Vega (fst p)) floor)))
         (combine df model)).

(** The same with one floor per quote. *)
Definition weighted_mse_floors (floors : list F) (df : DataFrame) (model : list F) : F :=
  np_mean
    (map (fun p => fsquare (fdiv (fsub (Market_price (fst (fst p))) (snd (fst p)))
                                 (np_maximum1 (Vega (fst (fst p))) (snd p))))
         (combine (combine df model) floors)).

(** The price [loss_function] ends up with for one quote when the pricer
    treats the strikes of a batch one by one: the quote's own maturity,
    strike and side, the rate and yield of its group's first row. *)
Definition batched_price (heston_params : list F) (df : DataFrame) (qt : quote) : F :=
  match representative df (To_expiry qt) with
  | Some rep =>
      hd NaN (vanilla_price (To_expiry qt) [Strike qt]
                (S0, Risk_Free rep, Impl_Yld rep) heston_params
                [Option_type qt] (Some 185%Z))
  | None => NaN
  end.

(** *** Market put/call parity (lines 149-156) *)

Definition put_via_parity (call_price K r q T : F) : F :=
  fsub (fadd call_price (fmul K (np_exp (fmul (fneg r) T))))
       (fmul S0 (np_exp (fmul (fneg q) T))).

Definition market_put_price_CP (rw : row) : F :=
  put_via_parity (r_Market_call_price rw) (r_Strike rw) (r_Risk_Free rw)
    (r_Impl_Yld rw) (r_To_expiry rw).

(** The boolean the script prints. *)
Definition market_parity_check (rows : list row) : bool :=
  flt (series_max
         (map (fun rw => fsub (r_Market_put_price rw) (market_put_price_CP rw)) rows))
      lit_1e_10.

(** *** Filters and derived columns (lines 125, 159-192) *)

Definition positive_iv (rw : row) : bool := fgt (r_IV rw) (Fin (Q2Qc 0)).

Definition positive_prices (rw : row) : bool :=
  fgt (r_Market_put_price rw) (Fin (Q2Qc 0))
  && fgt (r_Market_call_price rw) (Fin (Q2Qc 0)).

Definition mn_low : F := Fin (Q2Qc (8 # 10)).
Definition mn_high : F := Fin (Q2Qc (12 # 10)).

Definition in_band (rw : row) : bool :=
  fge (r_Moneyness rw) mn_low && fle (r_Moneyness rw) mn_high.

Definition prepare (rw : row) : quote :=
  let is_call := fge (r_Moneyness rw) (Fin (Q2Qc 1)) in
  {| IV := r_IV rw;
     To_expiry := r_To_expiry rw;
     Strike := r_Strike rw;
     Risk_Free := r_Risk_Free rw;
     Impl_Yld := r_Impl_Yld rw;
     Moneyness := r_Moneyness rw;
     Market_call_price := r_Market_call_price rw;
     Market_put_price := r_Market_put_price rw;
     Option_type := if is_call then call else put;
     Market_price := if is_call then r_Market_call_price rw else r_Market_put_price rw;
     Vega := r_Vega rw |}.

(** *** Initial parameters (lines 304-311) *)

Definition strike_minus_spot (df : DataFrame) : list F :=
  map (fun qt => fsub (Strike qt) S0) df.

Definition x0_seed (df : DataFrame) : option (list F) :=
  try i := idxmin (map fabs (strike_minus_spot df)) in
  try qt := nth_error df i in
  let iv_atm_guess := IV qt in
  try iv_squared := py_pow2 iv_atm_guess in
  let v0_init := py_max lit_1e_6 iv_squared in
  let theta_init := v0_init in
  let kappa_init := Fin (Q2Qc 3) in
  let sigma_init := Fin (Q2Qc (1 # 2)) in
  let rho_init := Fin (Q2Qc (-1 # 2)) in
  Some [v0_init; kappa_init; theta_init; sigma_init; rho_init; Fin (Q2Qc 0)].

(** *** Parity under the model at the seed (lines 328-358) *)

Definition vanilla_price_scalar (T K : F) (option_params : F * F * F)
    (heston_params : list F) (ot : option_type) (N : option Z) : option F :=
  hd_error (vanilla_price T [K] option_params heston_params [ot] N).

Definition heston_side (x0 : list F) (ot : option_type) (df : DataFrame)
  : option (list F) :=
  apply_rows
    (fun qt => vanilla_price_scalar (To_expiry qt) (Strike qt)
                 (S0, Risk_Free qt, Impl_Yld qt) x0 ot None)
    df.

Definition seed_parity_check (df : DataFrame) (x0 : list F) : option (bool * F) :=
  try heston_calls := heston_side x0 call df in
  try heston_puts := heston_side x0 put df in
  let heston_puts_via_parity :=
    map (fun p => put_via_parity (fst p) (Strike (snd p)) (Risk_Free (snd p))
                    (Impl_Yld (snd p)) (To_expiry (snd p)))
        (combine heston_calls df) in
  let diffs :=
    map (fun p => fsub (fst p) (snd p)) (combine heston_puts heston_puts_via_parity) in
  Some (flt (series_max diffs) lit_1e_10, series_max (map fabs diffs)).

(** *** Calibration (lines 364-396) *)

(** The two SciPy drivers: given the objective, the bounds and the callback,
    they return their result, or fail when something they call raises. *)
Variable differential_evolution :
  (list F -> option F) -> list (F * F)
  -> (list F -> F -> state -> option (state * progress * bool))
  -> option (list F).

Variable minimize :
  (list F -> option F) -> list F -> list (F * F)
  -> (list F -> F -> list F -> option (list F * progress))
  -> option (list F * F).

Definition feller (optimal_heston : list F) : option bool :=
  match optimal_heston with
  | [v0_opt; kappa_opt; theta_opt; sigma_opt; rho_opt; lambda_opt] =>
      Some (fgt (fmul (fmul (Fin (Q2Qc 2)) kappa_opt) theta_opt) (fsquare sigma_opt))
  | _ => None
  end.

(** The table the optimizers work on. *)
Definition prepared (rows : list row) : DataFrame :=
  map prepare (filter in_band (filter positive_prices (filter positive_iv rows))).

(** The script from the parity check to the Feller report: what it prints
    and enters, and whether it ran to the end. *)
Definition script (rows : list row) : list event * bool :=
  let ev1 := [print_parity_market (market_parity_check (filter positive_iv rows))] in
  let df := prepared rows in
  let ev2 := ev1 ++ [print_batch_size (length df);
                     print_strike_minus_spot (strike_minus_spot df)] in
  match x0_seed df with
  | None => (ev2, false)
  | Some x0 =>
  match seed_parity_check df x0 with
  | None => (ev2, false)
  | Some (ok, max_abs) =>
  let ev3 := ev2 ++ [print_parity_seed ok max_abs; print_initial_params x0;
                     start_global] in
  match differential_evolution (objective df) bounds (callback_ga script_hyper df) with
  | None => (ev3, false)
  | Some x_de =>
  let ev4 := ev3 ++ [global_completed; start_local] in
  match minimize (objective df) x_de bounds (callback df) with
  | None => (ev4, false)
  | Some (optimal_heston, optimal_loss) =>
  let ev5 := ev4 ++ [print_optimized optimal_heston optimal_loss] in
  match feller optimal_heston with
  | None => (ev5, false)
  | Some ok_feller => (ev5 ++ [print_feller ok_feller], true)
  end end end end end.

End Script.

(** ** Concrete data for the examples *)

Module Examples.

Definition num (z : Z) : F := Fin (Q2Qc (inject_Z z)).
Definition frac (n : Z) (d : positive) : F := Fin (Q2Qc (n # d)).

(** A pricer that answers every strike of a batch with the price 2. *)
Definition flat_price (T : F) (K : list F) (op : F * F * F) (x : list F)
    (ot : list option_type) (N : option Z) : list F :=
  map (fun _ => num 2) K.

(** A pricer that prices each strike of a batch on its own, from the
    maturity, the strike, the rate and the first parameter. *)
Definition toy_price1 (T K : F) (op : F * F * F) (x : list F) (ot : option_type)
    (N : option Z) : F :=
  let '(_, r, _) := op in
  fadd (fadd (fmul K r) T) (hd (num 0) x).

Definition toy_price (T : F) (K : list F) (op : F * F * F) (x : list F)
    (ot : list option_type) (N : option Z) : list F :=
  map (fun p => toy_price1 T (fst p) op x (snd p) N) (combine K ot).


(** The exponential cut after its second-order term; exact at 0. *)
Definition exp_taylor2 (a : F) : F :=
  match a with
  | Fin _ => fadd (fadd (num 1) a) (fdiv (fmul a a) (num 2))
  | PInf => PInf
  | NInf => num 0
  | NaN => NaN
  end.

(** Drivers that return a point without searching. *)
Definition de_lower_corner (f : list F -> option F) (b : list (F * F))
    (cb : list F -> F -> state -> option (state * progress * bool))
  : option (list F) :=
  Some (map fst b).

Definition minimize_stay (f : list F -> option F) (x0 : list F) (b : list (F * F))
    (cb : list F -> F -> list F -> option (list F * progress))
  : option (list F * F) :=
  option_map (fun l => (x0, l)) (f x0).

Definition spot : F := num 100.

(** One at-the-money call: market price 4, vega 1. *)
Definition one_quote : DataFrame :=
  [ {| IV := frac 1 5; To_expiry := frac 1 2; Strike := num 100;
       Risk_Free := num 0; Impl_Yld := num 0; Moneyness := num 1;
       Market_call_price := num 4; Market_put_price := num 4;
       Option_type := call; Market_price := num 4; Vega := num 1 |} ].

(** Three quotes on two maturities; the two six-month quotes share their
    rate and yield. *)
Definition three_quotes : DataFrame :=
  [ {| IV := frac 1 5; To_expiry := frac 1 2; Strike := num 90;
       Risk_Free := frac 1 100; Impl_Yld := num 0; Moneyness := frac 9 10;
       Market_call_price := num 12; Market_put_price := num 2;
       Option_type := put; Market_price := num 2; Vega := num 20 |};
    {| IV := frac 1 4; To_expiry := num 1; Strike := num 100;
       Risk_Free := frac 2 100; Impl_Yld := num 0; Moneyness := num 1;
       Market_call_price := num 9; Market_put_price := num 8;
       Option_type := call; Market_price := num 9; Vega := num 38 |};
    {| IV := frac 1 5; To_expiry := frac 1 2; Strike := num 110;
       Risk_Free := frac 1 100; Impl_Yld := num 0; Moneyness := frac 11 10;
       Market_call_price := num 3; Market_put_price := num 12;
       Option_type := call; Market_price := num 3; Vega := num 25 |} ].

(** The one quote, followed by a copy whose expiry date could not be read
    (time-to-expiry NaN). *)
Definition nan_maturity_quotes : DataFrame :=
  one_quote
  ++ [ {| IV := frac 1 5; To_expiry := NaN; Strike := num 100;
          Risk_Free := num 0; Impl_Yld := num 0; Moneyness := num 1;
          Market_call_price := num 4; Market_put_price := num 4;
          Option_type := call; Market_price := num 4; Vega := num 1 |} ].

(** A quote whose market price is what [toy_price] gives at [inside_box]:
    100 * 0.01 + 0.5 + 0.04 = 1.54. *)
Definition fitted_quote : DataFrame :=
  [ {| IV := frac 1 5; To_expiry := frac 1 2; Strike := num 100;
       Risk_Free := frac 1 100; Impl_Yld := num 0; Moneyness := num 1;
       Market_call_price := frac 77 50; Market_put_price := frac 1 2;
       Option_type := call; Market_price := frac 77 50; Vega := num 25 |} ].

(** Two quotes equally far from the spot 100, the second with the higher
    implied volatility. *)
Definition tied_quotes : DataFrame :=
  [ {| IV := frac 1 5; To_expiry := frac 1 2; Strike := num 95;
       Risk_Free := num 0; Impl_Yld := num 0; Moneyness := frac 95 100;
       Market_call_price := num 8; Market_put_price := num 3;
       Option_type := put; Market_price := num 3; Vega := num 25 |};
    {| IV := frac 3 10; To_expiry := frac 1 2; Strike := num 105;
       Risk_Free := num 0; Impl_Yld := num 0; Moneyness := frac 105 100;
       Market_call_price := num 4; Market_put_price := num 9;
       Option_type := call; Market_price := num 4; Vega := num 25 |} ].

(** A quote with an implied volatility of 200%. *)
Definition high_vol_quote : DataFrame :=
  [ {| IV := num 2; To_expiry := frac 1 2; Strike := num 100;
       Risk_Free := num 0; Impl_Yld := num 0; Moneyness := num 1;
       Market_call_price := num 50; Market_put_price := num 50;
       Option_type := call; Market_price := num 50; Vega := num 20 |} ].

(** A row whose put is 4 below what parity gives from its call
    (5 + 100 - 100 = 5 at zero rate and yield), and one whose put is 1
    above it. *)
Definition put_below_parity : list row :=
  [ {| r_IV := frac 1 5; r_To_expiry := num 1; r_Strike := num 100;
       r_Risk_Free := num 0; r_Impl_Yld := num 0; r_Moneyness := num 1;
       r_Market_call_price := num 5; r_Market_put_price := num 1;
       r_Vega := num 30 |} ].

Definition put_above_parity : list row :=
  [ {| r_IV := frac 1 5; r_To_expiry := num 1; r_Strike := num 100;
       r_Risk_Free := num 0; r_Impl_Yld := num 0; r_Moneyness := num 1;
       r_Market_call_price := num 5; r_Market_put_price := num 6;
       r_Vega := num 30 |} ].

(** The seed of a 20% implied volatility, inside the box. *)
Definition inside_box : list F :=
  [frac 1 25; num 3; frac 1 25; frac 1 2; frac (-1) 2; num 0].

(** A quote with an implied volatility of 1e200, and one whose strike is
    NaN. *)
Definition huge_vol_quote : DataFrame :=
  [ {| IV := num (10 ^ 200); To_expiry := frac 1 2; Strike := num 100;
       Risk_Free := num 0; Impl_Yld := num 0; Moneyness := num 1;
       Market_call_price := num 50; Market_put_price := num 50;
       Option_type := call; Market_price := num 50; Vega := num 20 |} ].

Definition nan_strike_quote : DataFrame :=
  [ {| IV := frac 1 5; To_expiry := frac 1 2; Strike := NaN;
       Risk_Free := num 0; Impl_Yld := num 0; Moneyness := num 1;
       Market_call_price := num 4; Market_put_price := num 4;
       Option_type := call; Market_price := num 4; Vega := num 1 |} ].


(** A vector outside the box: its first coordinate is 5. *)
Definition outside_box : list F :=
  [num 5; num 3; frac 1 25; frac 1 2; frac (-1) 2; num 0].

End Examples.

(** ** Notions used in the statements below *)


(** The seed for a given [iv ** 2] (lines 306-311). *)
Definition seed_vector (iv_squared : F) : list F :=
  [py_max lit_1e_6 iv_squared; Fin (Q2Qc 3); py_max lit_1e_6 iv_squared;
   Fin (Q2Qc (1 # 2)); Fin (Q2Qc (-1 # 2)); Fin (Q2Qc 0)].

(** * Properties *)

(** ** Order on floats *)

Lemma Qclt_bool_iff (x y : Qc) : Qclt_bool x y = true <-> (x < y)%Qc.
Proof.
  unfold Qclt_bool. rewrite Qclt_alt.
  destruct (x ?= y)%Qc; split; congruence.
Qed.

Lemma Qc_eq_bool_iff (x y : Qc) : Qc_eq_bool x y = true <-> x = y.
Proof.
  split; [apply Qc_eq_bool_correct|].
  intros ->. unfold Qc_eq_bool. destruct (Qc_eq_dec y y); congruence.
Qed.

Lemma feq_eq (a b : F) : feq a b = true -> a = b.
Proof.
  destruct a, b; simpl; try discriminate; trivial.
  intros H. apply Qc_eq_bool_correct in H. now subst.
Qed.

Lemma feq_refl (a : F) : is_nan a = false -> feq a a = true.
Proof.
  destruct a; simpl; try discriminate; trivial.
  intros _. now apply Qc_eq_bool_iff.
Qed.

Lemma flt_irrefl (a : F) : flt a a = false.
Proof.
  destruct a as [q| | |]; simpl; trivial.
  destruct (Qclt_bool q q) eqn:E; trivial.
  apply Qclt_bool_iff in E. exfalso. revert E. apply Qcle_not_lt, Qcle_refl.
Qed.

Lemma flt_trans (a b c : F) : flt a b = true -> flt b c = true -> flt a c = true.
Proof.
  destruct a as [x| | |], b as [y| | |], c as [z| | |]; simpl; try congruence.
  rewrite !Qclt_bool_iff. apply Qclt_trans.
Qed.

(** ** The differential-evolution callback *)

Section Callback.

Variable h : hyper.

Lemma callback_ga_body_accept (xk : list F) (cur elapsed : F) (st : state) :
  improved_test h (best st) cur = true ->
  fst (fst (callback_ga_body h xk cur elapsed st))
  = {| best := cur; best_x := best_x st; iters := iters st + 1; stale := 0 |}.
Proof. intros H. unfold callback_ga_body. simpl. now rewrite H. Qed.

Lemma callback_ga_body_reject (xk : list F) (cur elapsed : F) (st : state) :
  improved_test h (best st) cur = false ->
  fst (fst (callback_ga_body h xk cur elapsed st))
  = {| best := best st; best_x := best_x st; iters := iters st + 1;
       stale := stale st + 1 |}.
Proof. intros H. unfold callback_ga_body. simpl. now rewrite H. Qed.

Lemma callback_ga_body_stop (xk : list F) (cur elapsed : F) (st : state) :
  snd (callback_ga_body h xk cur elapsed st)
  = stop_test h elapsed (fst (fst (callback_ga_body h xk cur elapsed st))).
Proof. reflexivity. Qed.

Lemma improved_test_lt (prev cur : F) :
  improved_test h prev cur = true -> flt cur prev = true.
Proof. unfold improved_test. intros H. now apply andb_true_iff in H. Qed.

Lemma feed_cons (st : state) (xk : list F) (cur elapsed : F)
    (t : list (list F * F * F)) :
  feed h st ((xk, cur, elapsed) :: t)
  = (fst (feed h (fst (fst (callback_ga_body h xk cur elapsed st))) t),
     snd (callback_ga_body h xk cur elapsed st)
     :: snd (feed h (fst (fst (callback_ga_body h xk cur elapsed st))) t)).
Proof.
  cbn [feed]. destruct (callback_ga_body h xk cur elapsed st) as [[st' pr] stop].
  cbn [fst snd]. now destruct (feed h st' t).
Qed.

Lemma stop_test_no_budget (elapsed : F) (st : state) :
  MAX_SECONDS_CB h = None ->
  stop_test h elapsed st = negb (PATIENCE_CB h =? 0) && (PATIENCE_CB h <=? stale st).
Proof.
  intros H. unfold stop_test. rewrite H.
  now destruct (negb (PATIENCE_CB h =? 0) && (PATIENCE_CB h <=? stale st)).
Qed.

(** A run of rejected losses: the stale counter climbs by one per
    invocation and the stored best does not move. *)
Lemma feed_rejected (rest : list (list F * F * F)) : forall st,
  MAX_SECONDS_CB h = None ->
  PATIENCE_CB h <> 0 ->
  Forall (fun i => improved_test h (best st) (loss_of i) = false) rest ->
  snd (feed h st rest)
  = map (fun j => PATIENCE_CB h <=? stale st + j) (seq 1 (length rest)).
Proof.
  induction rest as [|[[xk cur] elapsed] t IH]; intros st Hb Hp Hall; [reflexivity|].
  inversion Hall as [|? ? Hcur Ht]; subst. unfold loss_of in Hcur; simpl in Hcur.
  rewrite feed_cons. cbn [snd length seq map].
  rewrite callback_ga_body_stop, (callback_ga_body_reject _ _ _ _ Hcur).
  rewrite stop_test_no_budget by assumption. cbn [stale].
  apply Nat.eqb_neq in Hp. rewrite Hp. cbn [negb andb]. f_equal.
  rewrite IH; [|assumption|now apply Nat.eqb_neq|exact Ht].
  cbn [stale]. rewrite <- (seq_shift (length t) 1), map_map.
  apply map_ext. intros j. f_equal. lia.
Qed.

Lemma below_patience (n : nat) :
  map (fun j => S n <=? j) (seq 1 (S n)) = repeat false n ++ [true].
Proof.
  rewrite seq_S, map_app. cbn [map]. f_equal.
  - assert (G : forall m k, k + m <= S n ->
               map (fun j => S n <=? j) (seq k m) = repeat false m).
    { induction m as [|m IHm]; intros k Hk; [reflexivity|].
      cbn [seq map repeat]. f_equal.
      - apply Nat.leb_gt. lia.
      - apply IHm. lia. }
    apply G. lia.
  - f_equal. apply Nat.leb_le. lia.
Qed.

End Callback.

(** The divisor of the relative improvement is never zero. *)
Lemma py_max_floor_nonzero (prev : F) :
  feq (py_max (fabs prev) lit_1e_12) (Fin (Q2Qc 0)) = false.
Proof.
  unfold py_max, fgt. destruct (flt (fabs prev) lit_1e_12) eqn:E; [reflexivity|].
  destruct (feq (fabs prev) (Fin (Q2Qc 0))) eqn:E0; [|reflexivity].
  apply feq_eq in E0. rewrite E0 in E. vm_compute in E. discriminate.
Qed.

Lemma feed_best (h : hyper) (inputs : list (list F * F * F)) : forall st,
  best (fst (feed h st inputs)) = best st
  \/ flt (best (fst (feed h st inputs))) (best st) = true.
Proof.
  induction inputs as [|[[xk cur] elapsed] t IH]; intros st; [now left|].
  rewrite feed_cons. cbn [fst].
  destruct (improved_test h (best st) cur) eqn:E.
  - rewrite (callback_ga_body_accept h xk cur elapsed st E).
    apply improved_test_lt in E.
    destruct (IH {| best := cur; best_x := best_x st; iters := iters st + 1;
                    stale := 0 |}) as [H|H]; cbn [best] in H; right.
    + now rewrite H.
    + eapply flt_trans; eassumption.
  - rewrite (callback_ga_body_reject h xk cur elapsed st E).
    exact (IH {| best := best st; best_x := best_x st; iters := iters st + 1;
                 stale := stale st + 1 |}).
Qed.

Lemma finite_beats_initial (c : Qc) :
  improved_test script_hyper (best state_init) (Fin c) = true.
Proof. reflexivity. Qed.

(** C2 (code at the failing input).  On the first generation, with a loss of
    1, the improvement test accepts: the stored best becomes 1 and the stale
    counter is 0.  The stored best parameter vector is not touched: it is
    still [None], not the candidate [xk] the callback was given. *)
Theorem callback_ga_leaves_best_x_unset :
  improved_test script_hyper (best state_init) (Examples.num 1) = true
  /\ fst (fst (callback_ga_body script_hyper Examples.inside_box (Examples.num 1)
                 (Examples.num 0) state_init))
     = {| best := Examples.num 1; best_x := None; iters := 1; stale := 0 |}
  /\ best_x (fst (fst (callback_ga_body script_hyper Examples.inside_box
                         (Examples.num 1) (Examples.num 0) state_init)))
     <> Some Examples.inside_box.
Proof.
  split; [reflexivity|]. split; [reflexivity|]. discriminate.
Qed.

Lemma accepted_then_rejected (h : hyper) (first : list F * F * F)
    (rest : list (list F * F * F)) (st : state) :
  MAX_SECONDS_CB h = None ->
  PATIENCE_CB h <> 0 ->
  length rest = PATIENCE_CB h ->
  improved_test h (best st) (loss_of first) = true ->
  Forall (fun i => improved_test h (loss_of first) (loss_of i) = false) rest ->
  snd (feed h st (first :: rest)) = repeat false (PATIENCE_CB h) ++ [true].
Proof.
  destruct first as [[xk cur] elapsed]. intros Hb Hp Hlen Hacc Hrej.
  unfold loss_of in Hacc, Hrej; cbn [fst snd] in Hacc, Hrej.
  rewrite feed_cons. cbn [snd].
  rewrite callback_ga_body_stop, (callback_ga_body_accept h xk cur elapsed st Hacc).
  rewrite stop_test_no_budget by assumption. cbn [stale].
  rewrite feed_rejected; [|assumption|assumption|exact Hrej].
  cbn [stale]. rewrite Hlen.
  change (fun j : nat => PATIENCE_CB h <=? 0 + j)
    with (fun j : nat => PATIENCE_CB h <=? j).
  destruct (PATIENCE_CB h) as [|n] eqn:E; [congruence|].
  change (negb (S n =? 0) && (S n <=? 0)) with false.
  rewrite below_patience.
  change (repeat false (S n)) with (false :: repeat false n). reflexivity.
Qed.

Lemma stop_test_iff (h : hyper) (elapsed : F) (st : state) :
  stop_test h elapsed st = true
  <-> (exists budget, MAX_SECONDS_CB h = Some budget /\ fge elapsed budget = true)
      \/ (PATIENCE_CB h <> 0 /\ PATIENCE_CB h <= stale st).
Proof.
  unfold stop_test. split.
  - destruct (MAX_SECONDS_CB h) as [budget|].
    + destruct (fge elapsed budget) eqn:E.
      * intros _. left. now exists budget.
      * intros H. right.
        destruct (PATIENCE_CB h =? 0) eqn:E0; cbn [negb andb] in H; [discriminate|].
        destruct (PATIENCE_CB h <=? stale st) eqn:E1; [|discriminate].
        split; [now apply Nat.eqb_neq|now apply Nat.leb_le].
    + intros H. right.
      destruct (PATIENCE_CB h =? 0) eqn:E0; cbn [negb andb] in H; [discriminate|].
      destruct (PATIENCE_CB h <=? stale st) eqn:E1; [|discriminate].
      split; [now apply Nat.eqb_neq|now apply Nat.leb_le].
  - intros [[budget [Hb Hge]]|[Hp Hs]].
    + now rewrite Hb, Hge.
    + apply Nat.eqb_neq in Hp. apply Nat.leb_le in Hs. rewrite Hp, Hs.
      cbn [negb andb]. now destruct (match MAX_SECONDS_CB h with
                                     | Some budget => fge elapsed budget
                                     | None => false end).
Qed.

(** C3 (as amended).  (1) The callback returns [True] exactly when the
    wall-clock budget is set and reached, or the patience is non-zero and
    the stale counter has reached it.  Without a budget and with a non-zero
    patience: (2) over a run of losses that are all rejected, the signal of
    the [j]-th invocation is [True] exactly when the stale counter, which
    rises by one each time, has reached the patience; (3) so from a stale
    counter of 0, [patience + 1] consecutive non-improving losses give
    [False] on the first [patience - 1], [True] on the [patience]-th and
    [True] again on the last; (4) when a loss is accepted and the next
    [patience] losses do not improve on it, the signal is [False] on the
    first [patience] of these [patience + 1] invocations and [True] on the
    last one only.  (5) With the script's settings (patience 8, no budget),
    from the initial state: a finite first loss followed by 8 losses that do
    not improve on it gives the stop signal exactly once, on the 9th
    invocation. *)
Theorem stop_fires_when_stale_reaches_patience :
  (forall h elapsed st,
      stop_test h elapsed st = true
      <-> (exists budget, MAX_SECONDS_CB h = Some budget /\ fge elapsed budget = true)
          \/ (PATIENCE_CB h <> 0 /\ PATIENCE_CB h <= stale st))
  /\ (forall h run st,
        MAX_SECONDS_CB h = None ->
        PATIENCE_CB h <> 0 ->
        Forall (fun i => improved_test h (best st) (loss_of i) = false) run ->
        snd (feed h st run)
        = map (fun j => PATIENCE_CB h <=? stale st + j) (seq 1 (length run)))
  /\ (forall h run st,
        MAX_SECONDS_CB h = None ->
        PATIENCE_CB h <> 0 ->
        stale st = 0 ->
        length run = PATIENCE_CB h + 1 ->
        Forall (fun i => improved_test h (best st) (loss_of i) = false) run ->
        snd (feed h st run) = repeat false (PATIENCE_CB h - 1) ++ [true; true])
  /\ (forall h first rest st,
        MAX_SECONDS_CB h = None ->
        PATIENCE_CB h <> 0 ->
        length rest = PATIENCE_CB h ->
        improved_test h (best st) (loss_of first) = true ->
        Forall (fun i => improved_test h (loss_of first) (loss_of i) = false) rest ->
        snd (feed h st (first :: rest)) = repeat false (PATIENCE_CB h) ++ [true])
  /\ (forall xk c elapsed rest,
        length rest = 8 ->
        Forall (fun i => improved_test script_hyper (Fin c) (loss_of i) = false) rest ->
        snd (feed script_hyper state_init ((xk, Fin c, elapsed) :: rest))
        = [false; false; false; false; false; false; false; false; true]).
Proof.
  split; [exact stop_test_iff|].
  split; [intros h run st Hb Hp Hrej; now apply feed_rejected|].
  split; [|split].
  - intros h run st Hb Hp Hs Hlen Hrej.
    rewrite feed_rejected by assumption. rewrite Hs, Hlen.
    change (fun j : nat => PATIENCE_CB h <=? 0 + j)
      with (fun j : nat => PATIENCE_CB h <=? j).
    destruct (PATIENCE_CB h) as [|n]; [congruence|].
    replace (S n + 1) with (S (S n)) by lia.
    rewrite seq_S, map_app, below_patience. cbn [map].
    replace (S n - 1) with n by lia. rewrite <- app_assoc. cbn [app].
    do 3 f_equal. apply Nat.leb_le. lia.
  - exact accepted_then_rejected.
  - intros xk c elapsed rest Hlen Hrej.
    apply (accepted_then_rejected script_hyper (xk, Fin c, elapsed) rest state_init);
      [reflexivity|discriminate|exact Hlen|apply finite_beats_initial|exact Hrej].
Qed.

(** C3 (as amended), at a concrete input: nine times the loss 1 after a loss
    of 1 was accepted; the signal comes on the eighth and on the ninth. *)
Lemma stop_fires_when_stale_reaches_patience_witness :
  snd (feed script_hyper
         {| best := Examples.num 1; best_x := None; iters := 1; stale := 0 |}
         (repeat (Examples.inside_box, Examples.num 1, Examples.num 0) 9))
  = repeat false (PATIENCE_CB script_hyper - 1) ++ [true; true].
Proof.
  apply (proj1 (proj2 (proj2 stop_fires_when_stale_reaches_patience)) script_hyper).
  - reflexivity.
  - discriminate.
  - reflexivity.
  - reflexivity.
  - repeat constructor.
Defined.

(** C3 (as stated) fails: nine consecutive losses that the callback rejects
    (nine NaN from the initial state; the nine 1s that follow a first 1)
    bring the stale counter to 8 on the eighth of them, so the signal comes
    on the eighth rejected loss and again on the ninth: not exactly once,
    and first on the patience-th, not on the (patience + 1)-th. *)
Lemma stop_fires_on_patience_th_rejection :
  improved_test script_hyper (best state_init) NaN = false
  /\ snd (feed script_hyper state_init
            (repeat (Examples.inside_box, NaN, Examples.num 0) 9))
     = [false; false; false; false; false; false; false; true; true]
  /\ improved_test script_hyper (Examples.num 1) (Examples.num 1) = false
  /\ snd (feed script_hyper state_init
            (repeat (Examples.inside_box, Examples.num 1, Examples.num 0) 10))
     = [false; false; false; false; false; false; false; false; true; true].
Proof. repeat split; reflexivity. Qed.

(** C8.  The stored best loss starts at +infinity.  One invocation of the
    callback leaves it as it was or replaces it by a strictly smaller value,
    and so does every sequence of invocations. *)
Theorem best_is_non_increasing :
  best state_init = PInf
  /\ (forall h xk cur elapsed st,
        let st' := fst (fst (callback_ga_body h xk cur elapsed st)) in
        best st' = best st \/ (best st' = cur /\ flt (best st') (best st) = true))
  /\ (forall h inputs st,
        let st' := fst (feed h st inputs) in
        best st' = best st \/ flt (best st') (best st) = true).
Proof.
  split; [reflexivity|]. split.
  - intros h xk cur elapsed st st'. subst st'.
    destruct (improved_test h (best st) cur) eqn:E.
    + rewrite (callback_ga_body_accept h xk cur elapsed st E). right.
      split; [reflexivity|]. now apply improved_test_lt in E.
    + rewrite (callback_ga_body_reject h xk cur elapsed st E). now left.
  - intros h inputs st. apply feed_best.
Qed.

(** ** Index arrays from [np.where] *)

Lemma same_value_eq (a b : F) : same_value a b = true <-> a = b.
Proof.
  unfold same_value. split.
  - intros H. apply orb_true_iff in H. destruct H as [H|H].
    + now apply feq_eq.
    + destruct a, b; simpl in H; try discriminate; reflexivity.
  - intros ->. destruct b; simpl; trivial.
    rewrite orb_false_r. now apply Qc_eq_bool_iff.
Qed.

Lemma masked_map {A B : Type} (f : A -> B) (mask : list bool) : forall a,
  masked mask (map f a) = map f (masked mask a).
Proof.
  induction mask as [|b m IH]; intros [|x t]; simpl; trivial.
  destruct b; simpl; now rewrite IH.
Qed.

Lemma length_where_from (mask : list bool) : forall k,
  length (where_from k mask) = length (masked mask mask).
Proof.
  induction mask as [|b m IH]; intros k; simpl; trivial.
  destruct b; simpl; now rewrite IH.
Qed.

Lemma length_masked {A B : Type} (mask : list bool) : forall (a : list A) (b : list B),
  length a = length b -> length (masked mask a) = length (masked mask b).
Proof.
  induction mask as [|c m IH]; intros [|x t] [|y u] H; simpl in *; try discriminate; trivial.
  destruct c; simpl; auto.
Qed.

Lemma fancy_get_where_from {A : Type} (mask : list bool) : forall (a pre : list A),
  length mask = length a ->
  fancy_get (pre ++ a) (where_from (length pre) mask) = Some (masked mask a).
Proof.
  induction mask as [|b m IH]; intros [|x t] pre H; simpl in H; try discriminate;
    [reflexivity|].
  injection H as H.
  assert (E : fancy_get (pre ++ x :: t) (where_from (S (length pre)) m)
              = Some (masked m t)).
  { replace (pre ++ x :: t) with ((pre ++ [x]) ++ t) by now rewrite <- app_assoc.
    replace (S (length pre)) with (length (pre ++ [x]))
      by (rewrite length_app; simpl; lia).
    now apply IH. }
  cbn [where_from masked]. destruct b; cbn [app fancy_get].
  - rewrite nth_error_app2, Nat.sub_diag by lia. cbn [nth_error]. now rewrite E.
  - exact E.
Qed.

Lemma fancy_get_where {A : Type} (mask : list bool) (a : list A) :
  length mask = length a -> fancy_get a (np_where mask) = Some (masked mask a).
Proof. intros H. exact (fancy_get_where_from mask a [] H). Qed.

Lemma set_nth_app {A : Type} (x y : A) (t : list A) : forall pre,
  set_nth (length pre) x (pre ++ y :: t) = Some (pre ++ x :: t).
Proof.
  induction pre as [|z pre IH]; simpl; trivial. now rewrite IH.
Qed.

Lemma scatter_where_from {A : Type} (mask : list bool) : forall (a v pre : list A),
  length mask = length a ->
  length v = length (masked mask mask) ->
  scatter (pre ++ a) (combine (where_from (length pre) mask) v)
  = Some (pre ++ merge mask a v).
Proof.
  induction mask as [|b m IH]; intros [|y t] v pre H Hv; simpl in H; try discriminate;
    [reflexivity|].
  injection H as H.
  assert (E : forall w, length w = length (masked m m) ->
              forall z, scatter (pre ++ z :: t) (combine (where_from (S (length pre)) m) w)
              = Some (pre ++ z :: merge m t w)).
  { intros w Hw z.
    replace (pre ++ z :: t) with ((pre ++ [z]) ++ t) by now rewrite <- app_assoc.
    replace (S (length pre)) with (length (pre ++ [z]))
      by (rewrite length_app; simpl; lia).
    rewrite IH by assumption. now rewrite <- app_assoc. }
  cbn [where_from masked merge] in *. destruct b.
  - destruct v as [|x v']; simpl in Hv; [discriminate|]. injection Hv as Hv.
    cbn [app combine scatter]. rewrite set_nth_app. now apply E.
  - cbn [app]. now apply E.
Qed.

Lemma fancy_set_where {A : Type} (mask : list bool) (a v : list A) :
  length mask = length a ->
  length v = length (masked mask mask) ->
  fancy_set a (np_where mask) v = Some (merge mask a v).
Proof.
  intros H Hv. unfold fancy_set, broadcast_to, np_where.
  rewrite length_where_from, <- Hv, Nat.eqb_refl.
  exact (scatter_where_from mask a v [] H Hv).
Qed.

(** Overwriting the picked cells of a column with values computed from the
    picked rows is a row-wise choice. *)
Lemma merge_rows {A B : Type} (m : A -> bool) (c g : A -> B) (df : list A) :
  merge (map m df) (map c df) (map g (masked (map m df) df))
  = map (fun rw => if m rw then g rw else c rw) df.
Proof.
  induction df as [|rw t IH]; simpl; trivial.
  destruct (m rw); simpl; now rewrite IH.
Qed.

(** ** [np.unique] *)

Lemma in_insert_unique (a x : F) (l : list F) :
  In x (insert_unique a l) <-> x = a \/ In x l.
Proof.
  induction l as [|b t IH]; simpl; [split; intros [H|H]; auto|].
  destruct (same_value a b) eqn:E.
  - apply same_value_eq in E. subst. simpl. split; [tauto|].
    intros [->|H]; auto.
  - destruct (sorts_before a b); simpl; [split; intros [H|H]; auto|].
    rewrite IH. split; intros H; intuition auto.
Qed.

Lemma in_np_unique (x : F) (l : list F) : In x (np_unique l) <-> In x l.
Proof.
  induction l as [|a t IH]; simpl; [tauto|].
  rewrite in_insert_unique, IH. split; intros [H|H]; auto.
Qed.



Lemma sorts_before_total (a b : F) :
  same_value a b = false -> sorts_before a b = false -> sorts_before b a = true.
Proof.
  unfold same_value, sorts_before.
  destruct a as [x| | |], b as [y| | |]; simpl; try congruence.
  unfold Qc_eq_bool. destruct (Qc_eq_dec x y) as [E|E]; [discriminate|].
  intros _ H. rewrite !orb_false_r in *. apply Qclt_bool_iff.
  destruct (Qc_dec x y) as [[L|G]|Q]; [|exact G|contradiction].
  apply Qclt_bool_iff in L. congruence.
Qed.





(** ** The loop of [loss_function] *)

Lemma map_combine_map {A B C D : Type} (f : B * C -> D) (a : A -> B) (b : A -> C)
    (l : list A) :
  map f (combine (map a l) (map b l)) = map (fun z => f (a z, b z)) l.
Proof. induction l as [|z t IH]; simpl; trivial. now rewrite IH. Qed.

Lemma masked_head_find {A : Type} (m : A -> bool) (l : list A) :
  nth_error (masked (map m l) l) 0 = find m l.
Proof.
  induction l as [|z t IH]; simpl; trivial. now destruct (m z).
Qed.

Lemma length_masked_self {A : Type} (m : A -> bool) (l : list A) :
  length (masked (map m l) l) = length (masked (map m l) (map m l)).
Proof. apply length_masked. now rewrite length_map. Qed.

Section Loop.

Variable S0 : F.
Variable vanilla_price :
  F -> list F -> F * F * F -> list F -> list option_type -> option Z -> list F.
Variable price1 : F -> F -> F * F * F -> list F -> option_type -> option Z -> F.

(** The pricer treats the strikes of a batch one by one. *)
Hypothesis pointwise : forall T K op x ot N,
  length K = length ot ->
  vanilla_price T K op x ot N
  = map (fun p => price1 T (fst p) op x (snd p) N) (combine K ot).

Variable x : list F.
Variable df : DataFrame.

Hypothesis no_nan : forall qt, In qt df -> is_nan (To_expiry qt) = false.

Let step := group_step S0 vanilla_price x (map To_expiry df) (map Strike df)
              (map Risk_Free df) (map Impl_Yld df) (map Option_type df).

Let call_of (Tj : F) (rep : quote) : oracle_call :=
  let G := masked (map (fun qt => feq (To_expiry qt) Tj) df) df in
  mkCall Tj (map Strike G) (S0, Risk_Free rep, Impl_Yld rep) x
    (map Option_type G) (Some 185%Z).

Lemma batched_price_eq (qt rep : quote) :
  representative df (To_expiry qt) = Some rep ->
  batched_price S0 vanilla_price x df qt
  = price1 (To_expiry qt) (Strike qt) (S0, Risk_Free rep, Impl_Yld rep) x
      (Option_type qt) (Some 185%Z).
Proof.
  intros H. unfold batched_price. rewrite H, pointwise by reflexivity. reflexivity.
Qed.

Lemma representative_some (Tj : F) :
  In Tj (map To_expiry df) ->
  exists rep, representative df Tj = Some rep /\ In rep df /\ To_expiry rep = Tj.
Proof.
  intros H. apply in_map_iff in H. destruct H as [qt [E Hin]].
  unfold representative.
  destruct (find (fun q => feq (To_expiry q) Tj) df) as [rep|] eqn:Ef.
  - apply find_some in Ef. destruct Ef as [Hr Hf]. exists rep.
    repeat split; trivial. now apply feq_eq.
  - exfalso. pose proof (find_none _ _ Ef _ Hin) as Hn. simpl in Hn.
    rewrite E, feq_refl in Hn; [discriminate|].
    rewrite <- E. now apply no_nan.
Qed.

(** One pass of the loop body over a column of cells given row by row. *)
Lemma group_step_rows (c : quote -> option F) (calls : list oracle_call) (Tj : F) :
  In Tj (map To_expiry df) ->
  exists rep,
    representative df Tj = Some rep
    /\ step {| model_prices := map c df; oracle_calls := calls |} Tj
       = Some {| model_prices :=
                   map (fun qt => if feq (To_expiry qt) Tj
                                  then Some (batched_price S0 vanilla_price x df qt)
                                  else c qt) df;
                 oracle_calls := calls ++ [call_of Tj rep] |}.
Proof.
  intros Hin. destruct (representative_some Tj Hin) as [rep [Hrep [Hrin HrT]]].
  exists rep. split; [exact Hrep|].
  unfold step, group_step. cbn [model_prices oracle_calls].
  set (m := fun qt : quote => feq (To_expiry qt) Tj).
  replace (map (fun t => feq t Tj) (map To_expiry df)) with (map m df)
    by (now rewrite map_map).
  rewrite !fancy_get_where by (now rewrite !length_map).
  rewrite !masked_map.
  set (G := masked (map m df) df).
  assert (Hhd : nth_error G 0 = Some rep)
    by (unfold G; rewrite masked_head_find; exact Hrep).
  rewrite !nth_error_map, Hhd. cbn [option_map].
  rewrite pointwise by (now rewrite !length_map).
  rewrite map_combine_map, map_map. cbn [fst snd].
  rewrite fancy_set_where.
  - f_equal. f_equal.
    unfold G. rewrite merge_rows. apply map_ext_in. intros qt Hqt.
    change (feq (To_expiry qt) Tj) with (m qt).
    destruct (m qt) eqn:Em; [|reflexivity].
    f_equal. unfold m in Em. apply feq_eq in Em.
    rewrite (batched_price_eq qt rep) by (now rewrite Em).
    now rewrite Em.
  - now rewrite !length_map.
  - rewrite length_map. apply length_masked_self.
Qed.

Lemma loop_rows (l : list F) : forall (c : quote -> option F) (calls : list oracle_call),
  (forall t, In t l -> In t (map To_expiry df)) ->
  exists calls',
    map call_T calls' = l
    /\ for_each step {| model_prices := map c df; oracle_calls := calls |} l
       = Some {| model_prices :=
                   map (fun qt => if existsb (fun t => feq (To_expiry qt) t) l
                                  then Some (batched_price S0 vanilla_price x df qt)
                                  else c qt) df;
                 oracle_calls := calls ++ calls' |}.
Proof.
  induction l as [|Tj t IH]; intros c calls Hl.
  - exists []. split; [reflexivity|]. cbn [for_each existsb].
    now rewrite app_nil_r.
  - destruct (group_step_rows c calls Tj (Hl Tj (or_introl eq_refl)))
      as [rep [_ Hstep]].
    destruct (IH (fun qt => if feq (To_expiry qt) Tj
                            then Some (batched_price S0 vanilla_price x df qt)
                            else c qt)
                 (calls ++ [call_of Tj rep])
                 (fun u Hu => Hl u (or_intror Hu))) as [calls' [Hc Hrun]].
    exists (call_of Tj rep :: calls'). split; [cbn [map call_T call_of]; now rewrite Hc|].
    cbn [for_each]. rewrite Hstep, Hrun. f_equal. f_equal.
    + apply map_ext. intros qt. cbn [existsb].
      destruct (feq (To_expiry qt) Tj), (existsb (fun u => feq (To_expiry qt) u) t);
        reflexivity.
    + now rewrite <- app_assoc.
Qed.

Lemma all_written_map {A B : Type} (f : A -> B) (l : list A) :
  all_written (map (fun a => Some (f a)) l) = Some (map f l).
Proof. induction l as [|a t IH]; simpl; trivial. now rewrite IH. Qed.

(** The loop prices every quote, with one call per distinct maturity. *)
Lemma loss_function_run_formula (market_prices vega_floor : pyarg) :
  exists calls,
    map call_T calls = np_unique (map To_expiry df)
    /\ loss_function_run S0 vanilla_price x df market_prices vega_floor
       = option_map (fun v => (v, calls))
           (aggregate df
              (map (batched_price S0 vanilla_price x df) df) vega_floor).
Proof.
  destruct (loop_rows (np_unique (map To_expiry df)) (fun _ => None) [])
    as [calls [Hc Hrun]]; [intros t; apply in_np_unique|].
  exists calls. split; [exact Hc|].
  unfold loss_function_run, aggregate.
  destruct (floored_vega df vega_floor) as [vega|]; [|reflexivity].
  rewrite map_map. fold step. rewrite Hrun. cbn [model_prices oracle_calls app].
  replace (map _ df) with (map (fun qt => Some (batched_price S0 vanilla_price x df qt)) df).
  - rewrite all_written_map.
    destruct (broadcast2 fsub _ _) as [diff|]; [|reflexivity].
    destruct (broadcast2 fdiv diff (fst vega)) as [ratio|]; reflexivity.
  - apply map_ext_in. intros qt Hqt.
    assert (E : existsb (fun t => feq (To_expiry qt) t)
                  (np_unique (map To_expiry df)) = true).
    { apply existsb_exists. exists (To_expiry qt). split.
      - apply in_np_unique. now apply in_map.
      - apply feq_refl. now apply no_nan. }
    now rewrite E.
Qed.


(** Rows of one maturity share their rate and yield. *)
Hypothesis shared_rates : forall a b,
  In a df -> In b df -> To_expiry a = To_expiry b ->
  Risk_Free a = Risk_Free b /\ Impl_Yld a = Impl_Yld b.


End Loop.

(** ** The aggregation *)

Lemma broadcast2_same (f : F -> F -> F) (a b : list F) :
  length a = length b ->
  broadcast2 f a b = Some (map (fun p => f (fst p) (snd p)) (combine a b)).
Proof. intros H. unfold broadcast2. now rewrite H, Nat.eqb_refl. Qed.

Lemma squares_float (floor : F) (df : DataFrame) : forall model,
  length model = length df ->
  map fsquare
    (map (fun p => fdiv (fst p) (snd p))
       (combine (map (fun p => fsub (fst p) (snd p))
                   (combine (map Market_price df) model))
                (map (fun v => np_maximum1 v floor) (map Vega df))))
  = map (fun p => fsquare (fdiv (fsub (Market_price (fst p)) (snd p))
                                (np_maximum1 (Vega (fst p)) floor)))
        (combine df model).
Proof.
  induction df as [|qt t IH]; intros [|m model] H; simpl in H; try discriminate;
    [reflexivity|].
  injection H as H. cbn [map combine fst snd]. now rewrite IH.
Qed.

Lemma squares_floors (df : DataFrame) : forall model floors,
  length model = length df ->
  length floors = length df ->
  map fsquare
    (map (fun p => fdiv (fst p) (snd p))
       (combine (map (fun p => fsub (fst p) (snd p))
                   (combine (map Market_price df) model))
                (map (fun p => np_maximum1 (fst p) (snd p))
                   (combine (map Vega df) floors))))
  = map (fun p => fsquare (fdiv (fsub (Market_price (fst (fst p))) (snd (fst p)))
                                (np_maximum1 (Vega (fst (fst p))) (snd p))))
        (combine (combine df model) floors).
Proof.
  induction df as [|qt t IH]; intros [|m model] [|f floors] H H';
    simpl in H, H'; try discriminate; [reflexivity|].
  injection H as H. injection H' as H'. cbn [map combine fst snd]. now rewrite IH.
Qed.

Lemma aggregate_float (floor : F) (df : DataFrame) (model : list F) :
  length model = length df ->
  aggregate df model (ArgFloat floor) = Some (weighted_mse floor df model).
Proof.
  intros H. unfold aggregate, floored_vega, weighted_mse. cbn [fst snd].
  rewrite broadcast2_same by (now rewrite length_map).
  rewrite broadcast2_same
    by (now rewrite !length_map, length_combine, length_map, H, Nat.min_id).
  now rewrite squares_float.
Qed.

Lemma aggregate_array (floors : list F) (df : DataFrame) (model : list F) :
  length model = length df ->
  length floors = length df ->
  aggregate df model (ArgArray floors) = Some (weighted_mse_floors floors df model).
Proof.
  intros H H'. unfold aggregate, floored_vega, weighted_mse_floors.
  rewrite broadcast2_same by (now rewrite length_map).
  cbn [fst snd].
  rewrite broadcast2_same by (now rewrite length_map).
  rewrite broadcast2_same
    by (now rewrite !length_map, !length_combine, !length_map, H, H', !Nat.min_id).
  now rewrite squares_floors.
Qed.

Lemma Fin_canon (a b : Qc) : (a == b)%Q -> Fin a = Fin b.
Proof. intros H. f_equal. now apply Qc_is_canon. Qed.

Ltac by_evaluation :=
  vm_compute;
  repeat match goal with
         | |- Some _ = Some _ => f_equal
         | |- Fin _ = Fin _ => apply Fin_canon; reflexivity
         | |- _ /\ _ => split
         | |- _ => reflexivity
         end.

(** ** The loss function *)

(** C10.  The value passed as third argument of [loss_function] does not
    reach the result: two calls that differ only there return the same. *)
Theorem loss_function_ignores_market_prices :
  forall S0 vanilla_price heston_params df vega_floor (a b : pyarg),
    loss_function S0 vanilla_price heston_params df a vega_floor
    = loss_function S0 vanilla_price heston_params df b vega_floor.
Proof. reflexivity. Qed.

(** C1 (code at the failing input).  One quote with market price 4 and
    vega 1, a pricer that answers 2.  The formula with the floor 1e-12
    gives ((4 - 2) / max(1, 1e-12)) ** 2 = 4, and so does [loss_function]
    when the floor is left out.  The optimizers' objective and the two
    callbacks pass the market prices in the position of the floor and get
    ((4 - 2) / max(1, 4)) ** 2 = 1/4. *)
Theorem call_sites_floor_vega_with_market_price :
  let df := Examples.one_quote in
  let x := Examples.inside_box in
  let S0 := Examples.spot in
  let price := Examples.flat_price in
  weighted_mse lit_1e_12 df (map (batched_price S0 price x df) df) = Examples.num 4
  /\ loss_function_default S0 price x df (option_args S0 df) = Some (Examples.num 4)
  /\ objective S0 price df x = Some (Examples.frac 1 4)
  /\ option_map (fun r => p_loss (snd (fst r)))
       (callback_ga S0 price script_hyper df x (Examples.num 0) state_init)
     = Some (Examples.frac 1 4)
  /\ option_map (fun r => p_loss (snd r))
       (callback S0 price df x (Examples.num 0) [])
     = Some (Examples.frac 1 4).
Proof. by_evaluation. Qed.

Lemma length_batched (S0 : F) vanilla_price (x : list F) (df : DataFrame) :
  length (map (batched_price S0 vanilla_price x df) df) = length df.
Proof. apply length_map. Qed.


(** C9 (as amended).  With a pricer that treats the strikes of a batch one
    by one and a table without NaN maturity, [loss_function] returns a loss
    for every parameter vector, inside the box or not: the formula's value
    with a scalar floor, and a value too for the optimizers' objective. *)
Theorem loss_function_has_no_bounds_check :
  forall (S0 : F)
         (vanilla_price :
            F -> list F -> F * F * F -> list F -> list option_type -> option Z -> list F)
         (price1 : F -> F -> F * F * F -> list F -> option_type -> option Z -> F)
         (df : DataFrame),
    (forall T K op y ot N,
        length K = length ot ->
        vanilla_price T K op y ot N
        = map (fun p => price1 T (fst p) op y (snd p) N) (combine K ot)) ->
    (forall qt, In qt df -> is_nan (To_expiry qt) = false) ->
    forall x : list F,
      (forall market_prices floor,
          loss_function S0 vanilla_price x df market_prices (ArgFloat floor)
          = Some (weighted_mse floor df (map (batched_price S0 vanilla_price x df) df)))
      /\ objective S0 vanilla_price df x
         = Some (weighted_mse_floors (mkt_arr df) df
                   (map (batched_price S0 vanilla_price x df) df)).
Proof.
  intros S0 vanilla_price price1 df Hpt Hnan x. split.
  - intros mp floor.
    destruct (loss_function_run_formula S0 vanilla_price price1 Hpt x df Hnan mp
                (ArgFloat floor)) as [calls [_ Hrun]].
    unfold loss_function. rewrite Hrun, aggregate_float by apply length_batched.
    reflexivity.
  - unfold objective.
    destruct (loss_function_run_formula S0 vanilla_price price1 Hpt x df Hnan
                (option_args S0 df) (ArgArray (mkt_arr df))) as [calls [_ Hrun]].
    unfold loss_function. rewrite Hrun, aggregate_array;
      [reflexivity|apply length_batched|apply length_map].
Qed.

Lemma toy_price_pointwise : forall T K op y ot N,
  length K = length ot ->
  Examples.toy_price T K op y ot N
  = map (fun p => Examples.toy_price1 T (fst p) op y (snd p) N) (combine K ot).
Proof. reflexivity. Qed.

Lemma three_quotes_no_nan : forall qt,
  In qt Examples.three_quotes -> is_nan (To_expiry qt) = false.
Proof. intros qt [<-|[<-|[<-|[]]]]; reflexivity. Qed.




(** C9 (as stated) fails: a vector whose first coordinate, 5, is above its
    upper bound 1 is priced like any other. *)
Lemma loss_function_accepts_outside_box :
  in_box Examples.outside_box bounds = false
  /\ loss_function_default Examples.spot Examples.flat_price Examples.outside_box
       Examples.one_quote (ArgFloat NaN)
     = Some (Examples.num 4)
  /\ objective Examples.spot Examples.flat_price Examples.one_quote
       Examples.outside_box
     = Some (Examples.frac 1 4).
Proof. by_evaluation. Qed.

(** C9 (as amended), at a concrete input: the vector outside the box on the
    three quotes. *)
Lemma loss_function_has_no_bounds_check_witness :
  in_box Examples.outside_box bounds = false
  /\ (forall market_prices floor,
        loss_function Examples.spot Examples.toy_price Examples.outside_box
          Examples.three_quotes market_prices (ArgFloat floor)
        = Some (weighted_mse floor Examples.three_quotes
                  (map (batched_price Examples.spot Examples.toy_price
                          Examples.outside_box Examples.three_quotes)
                     Examples.three_quotes)))
  /\ objective Examples.spot Examples.toy_price Examples.three_quotes
       Examples.outside_box
     = Some (weighted_mse_floors (mkt_arr Examples.three_quotes) Examples.three_quotes
               (map (batched_price Examples.spot Examples.toy_price
                       Examples.outside_box Examples.three_quotes)
                  Examples.three_quotes)).
Proof.
  split; [reflexivity|].
  apply (loss_function_has_no_bounds_check Examples.spot Examples.toy_price
           Examples.toy_price1 Examples.three_quotes).
  - exact toy_price_pointwise.
  - exact three_quotes_no_nan.
Defined.

(** ** Initial parameters *)

Lemma flt_false_below (w v m : F) :
  flt w m = false -> flt v m = true -> flt w v = false.
Proof.
  intros H1 H2. destruct (flt w v) eqn:E; trivial.
  rewrite (flt_trans w v m E H2) in H1. discriminate.
Qed.

Lemma flt_nan_l (m : F) : forall v, is_nan v = true -> flt v m = false.
Proof. intros [ | | | ]; simpl; congruence. Qed.

Lemma idxmin_from_good (l : list F) : forall pre acc,
  idxmin_good pre acc -> idxmin_good (pre ++ l) (idxmin_from (length pre) l acc).
Proof.
  induction l as [|v t IH]; intros pre acc H; cbn [idxmin_from].
  - now rewrite app_nil_r.
  - replace (pre ++ v :: t) with ((pre ++ [v]) ++ t) by now rewrite <- app_assoc.
    replace (S (length pre)) with (length (pre ++ [v]))
      by (rewrite length_app; simpl; lia).
    apply IH. destruct (is_nan v) eqn:Ev.
    + destruct acc as [[i m]|]; cbn [idxmin_good] in *.
      * destruct H as [Hn [Hm Hall]]. split; [|split; [exact Hm|]].
        -- rewrite nth_error_app1; [exact Hn|]. apply nth_error_Some. congruence.
        -- intros w Hw. apply in_app_iff in Hw. destruct Hw as [Hw|[<-|[]]]; auto.
           now apply flt_nan_l.
      * intros w Hw. apply in_app_iff in Hw. destruct Hw as [Hw|[<-|[]]]; auto.
    + destruct acc as [[i m]|]; cbn [idxmin_good] in *.
      * destruct H as [Hn [Hm Hall]]. destruct (flt v m) eqn:E; cbn [idxmin_good].
        -- split; [|split; [exact Ev|]].
           ++ rewrite nth_error_app2, Nat.sub_diag by lia. reflexivity.
           ++ intros w Hw. apply in_app_iff in Hw. destruct Hw as [Hw|[<-|[]]].
              ** eapply flt_false_below; [now apply Hall|exact E].
              ** apply flt_irrefl.
        -- split; [|split; [exact Hm|]].
           ++ rewrite nth_error_app1; [exact Hn|]. apply nth_error_Some. congruence.
           ++ intros w Hw. apply in_app_iff in Hw. destruct Hw as [Hw|[<-|[]]]; auto.
      * split; [|split; [exact Ev|]].
        -- rewrite nth_error_app2, Nat.sub_diag by lia. reflexivity.
        -- intros w Hw. apply in_app_iff in Hw. destruct Hw as [Hw|[<-|[]]].
           ++ apply flt_nan_l. now apply H.
           ++ apply flt_irrefl.
Qed.

(** [idxmin] returns the position of a value that no value of the list is
    below, and fails only when every value is NaN. *)
Lemma idxmin_spec (l : list F) :
  match idxmin l with
  | Some i => exists m, nth_error l i = Some m /\ is_nan m = false
                        /\ forall v, In v l -> flt v m = false
  | None => forall v, In v l -> is_nan v = true
  end.
Proof.
  unfold idxmin.
  assert (H := idxmin_from_good l [] None (fun v (Hv : In v []) => match Hv with end)).
  cbn [app length] in H.
  destruct (idxmin_from 0 l None) as [[i m]|]; cbn [option_map fst idxmin_good] in *.
  - now exists m.
  - exact H.
Qed.

Lemma seed_in_box (v0 : F) :
  in_box [v0; Fin (Q2Qc 3); v0; Fin (Q2Qc (1 # 2)); Fin (Q2Qc (-1 # 2)); Fin (Q2Qc 0)]
    bounds
  = fle lit_1e_4 v0 && fle v0 (Fin (Q2Qc 1)).
Proof.
  unfold in_box, bounds. cbn [length combine forallb fst snd Nat.eqb].
  destruct (fle lit_1e_4 v0), (fle v0 (Fin (Q2Qc 1))); reflexivity.
Qed.

Lemma floor_below_lower_bound : flt lit_1e_6 lit_1e_4 = true.
Proof. reflexivity. Qed.

Lemma fle_flt_trans (a b c : F) : flt a b = true -> fle b c = true -> flt a c = true.
Proof.
  intros H1 H2. unfold fle in H2. apply orb_true_iff in H2. destruct H2 as [H2|H2].
  - eapply flt_trans; eassumption.
  - apply feq_eq in H2. now subst.
Qed.

(** The floor 1e-6 of the seed lies below the lower bound 1e-4 of the box:
    the floored value is in [[1e-4, 1]] exactly when the square is. *)
Lemma floored_square_in_bounds (s : F) :
  fle lit_1e_4 (py_max lit_1e_6 s) && fle (py_max lit_1e_6 s) (Fin (Q2Qc 1))
  = fle lit_1e_4 s && fle s (Fin (Q2Qc 1)).
Proof.
  unfold py_max, fgt. destruct (flt lit_1e_6 s) eqn:E; [reflexivity|].
  destruct (fle lit_1e_4 s) eqn:E'.
  - rewrite (fle_flt_trans _ _ _ floor_below_lower_bound E') in E. discriminate.
  - reflexivity.
Qed.

Lemma x0_seed_unfold (S0 : F) (df : DataFrame) :
  x0_seed S0 df
  = match idxmin (map (fun qt => fabs (fsub (Strike qt) S0)) df) with
    | None => None
    | Some i =>
        match nth_error df i with
        | None => None
        | Some qt => option_map seed_vector (py_pow2 (IV qt))
        end
    end.
Proof.
  unfold x0_seed, strike_minus_spot. rewrite map_map.
  destruct (idxmin _) as [i|]; [|reflexivity].
  destruct (nth_error df i) as [qt|]; [|reflexivity].
  now destruct (py_pow2 (IV qt)).
Qed.

(** C6 (as amended).  On a table where some quote has a distance
    [|Strike - S0|] that is not NaN, the seed is built from a quote that no
    quote is closer to spot than (NaN distances are passed over).  With
    [iv] its implied volatility: if [iv ** 2] overflows the seeding raises;
    otherwise [v0 = max(1e-6, iv ** 2)], [theta = v0], [kappa = 3],
    [sigma = 0.5], [rho = -0.5], [lambda = 0], and the seed lies in the box
    exactly when [1e-4 <= iv ** 2 <= 1]. *)
Theorem seed_formula_and_box :
  forall (S0 : F) (df : DataFrame),
    (exists qt, In qt df /\ is_nan (fabs (fsub (Strike qt) S0)) = false) ->
    exists qt,
      In qt df
      /\ is_nan (fabs (fsub (Strike qt) S0)) = false
      /\ (forall qt', In qt' df ->
                      flt (fabs (fsub (Strike qt') S0)) (fabs (fsub (Strike qt) S0))
                      = false)
      /\ match py_pow2 (IV qt) with
         | None => x0_seed S0 df = None
         | Some iv_squared =>
             x0_seed S0 df
             = Some [py_max lit_1e_6 iv_squared; Fin (Q2Qc 3);
                     py_max lit_1e_6 iv_squared; Fin (Q2Qc (1 # 2));
                     Fin (Q2Qc (-1 # 2)); Fin (Q2Qc 0)]
             /\ in_box [py_max lit_1e_6 iv_squared; Fin (Q2Qc 3);
                        py_max lit_1e_6 iv_squared; Fin (Q2Qc (1 # 2));
                        Fin (Q2Qc (-1 # 2)); Fin (Q2Qc 0)] bounds
                = fle lit_1e_4 iv_squared && fle iv_squared (Fin (Q2Qc 1))
         end.
Proof.
  intros S0 df [q0 [Hq0 Hn0]].
  rewrite x0_seed_unfold.
  assert (Hspec := idxmin_spec (map (fun qt => fabs (fsub (Strike qt) S0)) df)).
  destruct (idxmin _) as [i|].
  - destruct Hspec as [m [Hn [Hm Hmin]]]. rewrite nth_error_map in Hn.
    destruct (nth_error df i) as [qt|] eqn:Eq; [|discriminate].
    injection Hn as <-. exists qt.
    split; [eapply nth_error_In; exact Eq|]. split; [exact Hm|]. split.
    + intros qt' Hin. apply Hmin.
      apply (in_map (fun q => fabs (fsub (Strike q) S0))). exact Hin.
    + destruct (py_pow2 (IV qt)) as [s|]; [|reflexivity].
      split; [reflexivity|]. rewrite seed_in_box. apply floored_square_in_bounds.
  - exfalso.
    rewrite (Hspec _ (in_map (fun q => fabs (fsub (Strike q) S0)) df q0 Hq0)) in Hn0.
    discriminate.
Qed.

(** C6, at a concrete input: three quotes with strikes 90, 100 and 110
    around the spot 100; the seed comes from the second one ([iv = 0.25],
    [v0 = 1/16]) and lies in the box. *)
Lemma seed_formula_and_box_witness :
  exists qt,
    In qt Examples.three_quotes
    /\ is_nan (fabs (fsub (Strike qt) Examples.spot)) = false
    /\ (forall qt', In qt' Examples.three_quotes ->
                    flt (fabs (fsub (Strike qt') Examples.spot))
                        (fabs (fsub (Strike qt) Examples.spot)) = false)
    /\ match py_pow2 (IV qt) with
       | None => x0_seed Examples.spot Examples.three_quotes = None
       | Some iv_squared =>
           x0_seed Examples.spot Examples.three_quotes
           = Some [py_max lit_1e_6 iv_squared; Fin (Q2Qc 3);
                   py_max lit_1e_6 iv_squared; Fin (Q2Qc (1 # 2));
                   Fin (Q2Qc (-1 # 2)); Fin (Q2Qc 0)]
           /\ in_box [py_max lit_1e_6 iv_squared; Fin (Q2Qc 3);
                      py_max lit_1e_6 iv_squared; Fin (Q2Qc (1 # 2));
                      Fin (Q2Qc (-1 # 2)); Fin (Q2Qc 0)] bounds
              = fle lit_1e_4 iv_squared && fle iv_squared (Fin (Q2Qc 1))
       end.
Proof.
  apply (seed_formula_and_box Examples.spot Examples.three_quotes).
  eexists. split; [left; reflexivity|reflexivity].
Defined.

(** C6 (as stated) fails on non-empty tables: a quote with an implied
    volatility of 200% gives [v0 = 4], above the upper bound 1 of the box;
    a quote with an implied volatility of 1e200 makes [iv ** 2] overflow, so
    that the seeding raises; a quote whose strike is NaN leaves [idxmin]
    nothing to choose from, and the seeding raises too. *)
Lemma seed_outside_box :
  x0_seed Examples.spot Examples.high_vol_quote
  = Some [Examples.num 4; Examples.num 3; Examples.num 4; Examples.frac 1 2;
          Examples.frac (-1) 2; Examples.num 0]
  /\ option_map (fun x0 => in_box x0 bounds)
       (x0_seed Examples.spot Examples.high_vol_quote)
     = Some false
  /\ x0_seed Examples.spot Examples.huge_vol_quote = None
  /\ x0_seed Examples.spot Examples.nan_strike_quote = None.
Proof.
  split; [|split; [|split]].
  - vm_compute. repeat f_equal; apply Qc_is_canon; reflexivity.
  - reflexivity.
  - vm_compute. reflexivity.
  - reflexivity.
Qed.

(** ** Market put/call parity and the run *)

Lemma zero_rate_exponent :
  fmul (fneg (Examples.num 0)) (Examples.num 1) = Examples.num 0.
Proof. by_evaluation. Qed.

(** C4 (code at the failing input).  Spot 100, one row with strike 100, zero
    rate and yield, call 5 and put 1: parity gives a put of 5, the observed
    put is 4 away from it, and the check still prints [True], because it
    compares the signed difference 1 - 5 with 1e-10. *)
Theorem market_parity_check_is_one_sided :
  forall np_exp : F -> F,
    np_exp (Examples.num 0) = Examples.num 1 ->
    market_parity_check Examples.spot np_exp Examples.put_below_parity = true
    /\ Forall (fun rw =>
                 fabs (fsub (r_Market_put_price rw)
                            (market_put_price_CP Examples.spot np_exp rw))
                 = Examples.num 4
                 /\ flt (fabs (fsub (r_Market_put_price rw)
                                    (market_put_price_CP Examples.spot np_exp rw)))
                        lit_1e_10 = false)
              Examples.put_below_parity.
Proof.
  intros np_exp H.
  unfold market_parity_check, Examples.put_below_parity, market_put_price_CP,
    put_via_parity.
  cbn [map r_Market_put_price r_Market_call_price r_Strike r_Risk_Free r_Impl_Yld
       r_To_expiry].
  split; [|constructor; [split|constructor]];
    cbn [r_Market_put_price r_Market_call_price r_Strike r_Risk_Free r_Impl_Yld
         r_To_expiry];
    rewrite ?zero_rate_exponent, ?H; by_evaluation.
Qed.

(** C4, with a concrete exponential that is exact at 0. *)
Lemma market_parity_check_is_one_sided_witness :
  Examples.exp_taylor2 (Examples.num 0) = Examples.num 1
  /\ market_parity_check Examples.spot Examples.exp_taylor2 Examples.put_below_parity
     = true
  /\ Forall (fun rw =>
               fabs (fsub (r_Market_put_price rw)
                          (market_put_price_CP Examples.spot Examples.exp_taylor2 rw))
               = Examples.num 4
               /\ flt (fabs (fsub (r_Market_put_price rw)
                                  (market_put_price_CP Examples.spot
                                     Examples.exp_taylor2 rw)))
                      lit_1e_10 = false)
            Examples.put_below_parity.
Proof.
  assert (H : Examples.exp_taylor2 (Examples.num 0) = Examples.num 1)
    by (apply Fin_canon; reflexivity).
  split; [exact H|].
  exact (market_parity_check_is_one_sided Examples.exp_taylor2 H).
Defined.

Ltac trace_membership H :=
  repeat (apply in_app_or in H; destruct H as [H|H]);
  simpl in H; intuition discriminate.

(** C5 (as amended).  The script starts by printing the outcome of the market
    parity check, and that is all it does with it.  It enters the global
    search exactly when the seed and the seed parity figures can be
    computed, and the local refinement exactly when, in addition, the global
    search returns; the outcome of the parity check plays no part. *)
Theorem parity_outcome_does_not_gate_the_run :
  forall (S0 : F)
         (vanilla_price :
            F -> list F -> F * F * F -> list F -> list option_type -> option Z -> list F)
         (np_exp : F -> F)
         (differential_evolution :
            (list F -> option F) -> list (F * F)
            -> (list F -> F -> state -> option (state * progress * bool))
            -> option (list F))
         (minimize :
            (list F -> option F) -> list F -> list (F * F)
            -> (list F -> F -> list F -> option (list F * progress))
            -> option (list F * F))
         (rows : list row),
    let df := prepared rows in
    let tr := fst (script S0 vanilla_price np_exp differential_evolution minimize rows) in
    hd_error tr
    = Some (print_parity_market (market_parity_check S0 np_exp (filter positive_iv rows)))
    /\ (In start_global tr
        <-> exists x0 r,
              x0_seed S0 df = Some x0
              /\ seed_parity_check S0 vanilla_price np_exp df x0 = Some r)
    /\ (In start_local tr
        <-> exists x0 r x_de,
              x0_seed S0 df = Some x0
              /\ seed_parity_check S0 vanilla_price np_exp df x0 = Some r
              /\ differential_evolution (objective S0 vanilla_price df) bounds
                   (callback_ga S0 vanilla_price script_hyper df)
                 = Some x_de).
Proof.
  intros S0 vanilla_price np_exp de minimize rows df tr. subst tr.
  unfold script. fold df.
  destruct (x0_seed S0 df) as [x0|] eqn:E1.
  2:{ cbn [fst]. split; [reflexivity|].
      split; (split; [intros H; trace_membership H|]).
      - intros [y [r [Hy _]]]. discriminate.
      - intros [y [r [z [Hy _]]]]. discriminate. }
  destruct (seed_parity_check S0 vanilla_price np_exp df x0) as [[ok m]|] eqn:E2.
  2:{ cbn [fst]. split; [reflexivity|].
      split; (split; [intros H; trace_membership H|]).
      - intros [y [r [Hy Hr]]]. congruence.
      - intros [y [r [z [Hy [Hr _]]]]]. congruence. }
  assert (G : In start_global
                (([print_parity_market (market_parity_check S0 np_exp
                                          (filter positive_iv rows))]
                  ++ [print_batch_size (length df);
                      print_strike_minus_spot (strike_minus_spot S0 df)])
                 ++ [print_parity_seed ok m; print_initial_params x0; start_global]))
    by (apply in_or_app; right; simpl; tauto).
  destruct (de (objective S0 vanilla_price df) bounds
              (callback_ga S0 vanilla_price script_hyper df)) as [x_de|] eqn:E3.
  2:{ cbn [fst]. split; [reflexivity|]. split.
      - split; [intros _; now exists x0, (ok, m)|intros _; exact G].
      - split; [intros H; trace_membership H|].
        intros [y [r [z [Hy [Hr Hz]]]]]. congruence. }
  assert (L : forall rest,
             In start_local ((([print_parity_market (market_parity_check S0 np_exp
                                          (filter positive_iv rows))]
                  ++ [print_batch_size (length df);
                      print_strike_minus_spot (strike_minus_spot S0 df)])
                 ++ [print_parity_seed ok m; print_initial_params x0; start_global])
                 ++ [global_completed; start_local] ++ rest))
    by (intros rest; apply in_or_app; right; simpl; tauto).
  assert (G' : forall rest,
             In start_global ((([print_parity_market (market_parity_check S0 np_exp
                                          (filter positive_iv rows))]
                  ++ [print_batch_size (length df);
                      print_strike_minus_spot (strike_minus_spot S0 df)])
                 ++ [print_parity_seed ok m; print_initial_params x0; start_global])
                 ++ rest))
    by (intros rest; apply in_or_app; left; exact G).
  assert (Ex1 : exists y r, Some x0 = Some y
                 /\ seed_parity_check S0 vanilla_price np_exp df y = Some r)
    by (exists x0, (ok, m); split; [reflexivity|exact E2]).
  assert (Ex2 : exists y r z, Some x0 = Some y
                 /\ seed_parity_check S0 vanilla_price np_exp df y = Some r
                 /\ Some x_de = Some z)
    by (exists x0, (ok, m), x_de; repeat split; [exact E2]).
  destruct (minimize (objective S0 vanilla_price df) x_de bounds
              (callback S0 vanilla_price df)) as [[oh ol]|];
    [destruct (feller oh)|]; cbn [fst];
    (split; [reflexivity|]);
    (split; split; intros _; try exact Ex1; try exact Ex2);
    rewrite <- ?app_assoc; try (rewrite !app_assoc; apply G');
    try (rewrite ?app_assoc; first [apply (L []) | apply L]).
Qed.

(** C5 (as stated) fails: on a row whose put is 1 above what parity gives
    from its call, the check prints [False] and the script goes on into the
    global search and the local refinement. *)
Lemma parity_failure_does_not_halt :
  market_parity_check Examples.spot Examples.exp_taylor2
    (filter positive_iv Examples.put_above_parity) = false
  /\ In (print_parity_market false)
        (fst (script Examples.spot Examples.flat_price Examples.exp_taylor2
                Examples.de_lower_corner Examples.minimize_stay
                Examples.put_above_parity))
  /\ In start_global
        (fst (script Examples.spot Examples.flat_price Examples.exp_taylor2
                Examples.de_lower_corner Examples.minimize_stay
                Examples.put_above_parity))
  /\ In start_local
        (fst (script Examples.spot Examples.flat_price Examples.exp_taylor2
                Examples.de_lower_corner Examples.minimize_stay
                Examples.put_above_parity)).
Proof.
  split; [reflexivity|].
  repeat split; vm_compute; repeat (first [left; reflexivity | right]).
Qed.

(** C5 (as amended), at a concrete input: the row above, whose parity check
    prints [False]. *)
Lemma parity_outcome_does_not_gate_the_run_witness :
  market_parity_check Examples.spot Examples.exp_taylor2
    (filter positive_iv Examples.put_above_parity) = false
  /\ In start_global
        (fst (script Examples.spot Examples.flat_price Examples.exp_taylor2
                Examples.de_lower_corner Examples.minimize_stay
                Examples.put_above_parity)).
Proof.
  split; [reflexivity|].
  apply (proj1 (proj2 (parity_outcome_does_not_gate_the_run Examples.spot
                         Examples.flat_price Examples.exp_taylor2
                         Examples.de_lower_corner Examples.minimize_stay
                         Examples.put_above_parity))).
  eexists. eexists. split; vm_compute; reflexivity.
Defined.

(** * Further properties *)

(** ** The callback state over a run *)

Lemma flt_PInf_l (a : F) : flt PInf a = false.
Proof. now destruct a. Qed.

Lemma flt_not_nan_l (a b : F) : flt a b = true -> is_nan a = false.
Proof. destruct a, b; simpl; congruence. Qed.

Lemma tracking_invariant_step (h : hyper) (xk : list F) (cur elapsed : F) (st : state) :
  tracking_invariant st ->
  tracking_invariant (fst (fst (callback_ga_body h xk cur elapsed st))).
Proof.
  intros H. destruct (improved_test h (best st) cur) eqn:E.
  - rewrite (callback_ga_body_accept h xk cur elapsed st E). right. cbn [best stale iters].
    split; [|lia]. apply improved_test_lt in E.
    destruct H as [[Hb _]|[Hb _]].
    + now rewrite Hb in E.
    + eapply flt_trans; eassumption.
  - rewrite (callback_ga_body_reject h xk cur elapsed st E). cbn [best stale iters].
    destruct H as [[Hb Hs]|[Hb Hs]]; [left|right]; split;
      cbn [best stale iters]; trivial; lia.
Qed.

Lemma feed_iters (h : hyper) (inputs : list (list F * F * F)) : forall st,
  iters (fst (feed h st inputs)) = iters st + length inputs
  /\ length (snd (feed h st inputs)) = length inputs
  /\ (tracking_invariant st -> tracking_invariant (fst (feed h st inputs))).
Proof.
  induction inputs as [|[[xk cur] elapsed] t IH]; intros st.
  - cbn [feed fst snd length]. repeat split; [lia|trivial].
  - rewrite feed_cons. cbn [fst snd length].
    destruct (IH (fst (fst (callback_ga_body h xk cur elapsed st)))) as [Hi [Hl Ht]].
    rewrite Hi, Hl. repeat split.
    + destruct (improved_test h (best st) cur) eqn:E.
      * rewrite (callback_ga_body_accept h xk cur elapsed st E). cbn [iters]. lia.
      * rewrite (callback_ga_body_reject h xk cur elapsed st E). cbn [iters]. lia.
    + intros H. apply Ht. now apply tracking_invariant_step.
Qed.

(** X1.  Over any sequence of invocations from the initial state, whatever
    the hyperparameters: the iteration counter is the number of invocations,
    one stop signal is returned per invocation, the stored best is never
    NaN, and the stale counter equals the iteration counter exactly as long
    as no loss has been accepted (the best is then still +infinity);
    afterwards it is strictly smaller. *)
Theorem callback_state_tracking :
  forall (h : hyper) (inputs : list (list F * F * F)),
    let st := fst (feed h state_init inputs) in
    iters st = length inputs
    /\ length (snd (feed h state_init inputs)) = length inputs
    /\ is_nan (best st) = false
    /\ stale st <= iters st
    /\ (stale st = iters st <-> best st = PInf).
Proof.
  intros h inputs st. subst st.
  destruct (feed_iters h inputs state_init) as [Hi [Hl Ht]].
  assert (T : tracking_invariant (fst (feed h state_init inputs)))
    by (apply Ht; left; split; reflexivity).
  split; [exact Hi|]. split; [exact Hl|].
  destruct T as [[Hb Hs]|[Hb Hs]].
  - rewrite Hb. repeat split; trivial; lia.
  - split; [eapply flt_not_nan_l; exact Hb|]. split; [lia|].
    split; [lia|]. intros E. rewrite E in Hb. discriminate.
Qed.

(** X2.  A loss that is NaN or +infinity is rejected in every state and with
    every setting of the thresholds: it adds one to the stale counter and
    leaves the stored best alone. *)
Theorem degenerate_loss_is_rejected :
  forall (h : hyper) (xk : list F) (cur elapsed : F) (st : state),
    cur = NaN \/ cur = PInf ->
    fst (fst (callback_ga_body h xk cur elapsed st))
    = {| best := best st; best_x := best_x st; iters := iters st + 1;
         stale := stale st + 1 |}.
Proof.
  intros h xk cur elapsed st H. apply callback_ga_body_reject.
  unfold improved_test. destruct H as [-> | ->]; [reflexivity|].
  now rewrite flt_PInf_l.
Qed.

Lemma degenerate_loss_is_rejected_witness :
  fst (fst (callback_ga_body script_hyper Examples.inside_box NaN (Examples.num 0)
              state_init))
  = {| best := PInf; best_x := None; iters := 1; stale := 1 |}.
Proof.
  apply (degenerate_loss_is_rejected script_hyper Examples.inside_box NaN
           (Examples.num 0) state_init).
  now left.
Defined.

(** ** Edge behaviour of the loss function *)

Lemma for_each_fails {S A : Type} (body : S -> A -> option S) (a : A) (l : list A) :
  (forall st, body st a = None) -> In a l -> forall st, for_each body st l = None.
Proof.
  intros Hfail. induction l as [|b t IH]; intros Hin st; [destruct Hin|].
  cbn [for_each]. destruct Hin as [->|Hin].
  - now rewrite Hfail.
  - destruct (body st b); [now apply IH|reflexivity].
Qed.

Lemma where_from_none (mask : list bool) : forall k,
  (forall b, In b mask -> b = false) -> where_from k mask = [].
Proof.
  induction mask as [|b m IH]; intros k H; [reflexivity|].
  cbn [where_from]. rewrite (H b (or_introl eq_refl)). cbn [app].
  apply IH. intros c Hc. apply H. now right.
Qed.

Lemma feq_nan_r (t : F) : feq t NaN = false.
Proof. now destruct t. Qed.

Lemma group_step_nan S0 vanilla_price (x T K r q : list F)
    (ot : list option_type) (st : loop_state) :
  group_step S0 vanilla_price x T K r q ot st NaN = None.
Proof.
  unfold group_step, np_where.
  rewrite (where_from_none (map (fun t => feq t NaN) T) 0)
    by (intros b Hb; apply in_map_iff in Hb; destruct Hb as [t [<- _]];
        apply feq_nan_r).
  reflexivity.
Qed.

(** X3.  A table with a NaN time-to-expiry makes [loss_function] raise,
    whatever the pricer, the parameters and the floor: [np.unique] keeps the
    NaN, no row compares equal to it, and taking the first rate of the empty
    group fails. *)
Theorem nan_maturity_raises :
  forall S0 vanilla_price (x : list F) (df : DataFrame) (market_prices vega_floor : pyarg),
    (exists qt, In qt df /\ is_nan (To_expiry qt) = true) ->
    loss_function S0 vanilla_price x df market_prices vega_floor = None.
Proof.
  intros S0 vanilla_price x df mp floor [qt [Hin Hnan]].
  unfold loss_function, loss_function_run.
  destruct (floored_vega df floor); [|reflexivity].
  rewrite (for_each_fails _ NaN).
  - reflexivity.
  - intros st. apply group_step_nan.
  - apply in_np_unique. apply in_map_iff. exists qt. split; [|exact Hin].
    destruct (To_expiry qt); simpl in Hnan; congruence.
Qed.

Lemma nan_maturity_raises_witness :
  loss_function Examples.spot Examples.flat_price Examples.inside_box
    Examples.nan_maturity_quotes (ArgFloat NaN) (ArgFloat lit_1e_12) = None.
Proof.
  apply nan_maturity_raises.
  eexists. split; [right; left; reflexivity|reflexivity].
Defined.

(** ** The sign of the loss *)

Lemma Qc_nonneg_iff (x : Qc) : Qclt_bool x (Q2Qc 0) = false <-> (Q2Qc 0 <= x)%Qc.
Proof.
  split.
  - intros H. apply Qcnot_lt_le. intros L. apply Qclt_bool_iff in L. congruence.
  - intros H. destruct (Qclt_bool x (Q2Qc 0)) eqn:E; [|reflexivity].
    apply Qclt_bool_iff in E. exfalso. revert E. now apply Qcle_not_lt.
Qed.

Lemma Qc_square_nonneg (q : Qc) : (Q2Qc 0 <= q * q)%Qc.
Proof.
  unfold Qcle, Qcmult, Q2Qc. cbn [this]. rewrite !Qred_correct.
  destruct q as [a Ha]. cbn [this]. nra.
Qed.

Lemma Qc_plus_nonneg (x y : Qc) :
  (Q2Qc 0 <= x)%Qc -> (Q2Qc 0 <= y)%Qc -> (Q2Qc 0 <= x + y)%Qc.
Proof.
  unfold Qcle, Qcplus, Q2Qc. cbn [this]. rewrite !Qred_correct. intros; lra.
Qed.

Lemma Qc_div_nonneg (x y : Qc) :
  (Q2Qc 0 <= x)%Qc -> (Q2Qc 0 <= y)%Qc -> (Q2Qc 0 <= x / y)%Qc.
Proof.
  unfold Qcle, Qcdiv, Qcmult, Qcinv, Q2Qc. cbn [this]. rewrite !Qred_correct.
  intros Hx Hy. apply Qmult_le_0_compat; [exact Hx|]. now apply Qinv_le_0_compat.
Qed.

Lemma Qc_of_nat_nonneg (n : nat) : (Q2Qc 0 <= Q2Qc (inject_Z (Z.of_nat n)))%Qc.
Proof.
  unfold Qcle, Q2Qc. cbn [this]. rewrite !Qred_correct.
  unfold Qle, inject_Z. cbn [Qnum Qden]. lia.
Qed.

Lemma fsquare_not_negative (a : F) : not_negative (fsquare a).
Proof.
  unfold not_negative. destruct a as [q| | |]; try reflexivity.
  cbn [fsquare fmul flt]. apply Qc_nonneg_iff, Qc_square_nonneg.
Qed.

Lemma fadd_not_negative (a b : F) :
  not_negative a -> not_negative b -> not_negative (fadd a b).
Proof.
  unfold not_negative.
  destruct a as [x| | |], b as [y| | |]; cbn [fadd flt]; try congruence.
  rewrite !Qc_nonneg_iff. apply Qc_plus_nonneg.
Qed.

Lemma np_sum_not_negative (l : list F) :
  Forall (fun v => not_negative v) l -> not_negative (np_sum l).
Proof.
  unfold np_sum.
  assert (G : forall a, not_negative a -> Forall (fun v => not_negative v) l ->
                        not_negative (fold_left fadd l a)).
  { induction l as [|v t IH]; intros a Ha H; [exact Ha|].
    inversion H; subst. cbn [fold_left]. apply IH; [|assumption].
    now apply fadd_not_negative. }
  apply G. unfold not_negative. cbn [flt]. apply Qc_nonneg_iff, Qcle_refl.
Qed.

Lemma np_mean_not_negative (l : list F) :
  Forall (fun v => not_negative v) l -> not_negative (np_mean l).
Proof.
  intros H. apply np_sum_not_negative in H. unfold not_negative, np_mean, of_nat in *.
  destruct (np_sum l) as [x| | |]; cbn [fdiv flt] in *; try congruence.
  - apply Qc_nonneg_iff in H.
    destruct (Qc_eq_bool (Q2Qc (inject_Z (Z.of_nat (length l)))) (Q2Qc 0)).
    + unfold sgn. apply Qcle_alt in H.
      destruct (Q2Qc 0 ?= x)%Qc eqn:C; try reflexivity. now elim H.
    + cbn [flt]. apply Qc_nonneg_iff. apply Qc_div_nonneg; [exact H|].
      apply Qc_of_nat_nonneg.
  - assert (E : Qclt_bool (Q2Qc (inject_Z (Z.of_nat (length l)))) (Q2Qc 0) = false)
      by (apply Qc_nonneg_iff, Qc_of_nat_nonneg).
    now rewrite E.
Qed.

Lemma loss_function_value S0 vanilla_price (x : list F) (df : DataFrame)
    (market_prices vega_floor : pyarg) (v : F) :
  loss_function S0 vanilla_price x df market_prices vega_floor = Some v ->
  exists (ratio : list F) (series : bool),
    v = if series then series_mean (map fsquare ratio)
        else np_mean (map fsquare ratio).
Proof.
  unfold loss_function, loss_function_run. intros H.
  destruct (floored_vega df vega_floor) as [vega|]; [|discriminate].
  destruct (for_each _ _ _) as [st|]; [|discriminate].
  destruct (all_written _) as [model|]; [|discriminate].
  destruct (broadcast2 fsub _ _) as [diff|]; [|discriminate].
  destruct (broadcast2 fdiv _ _) as [ratio|]; [|discriminate].
  cbn [option_map fst] in H. injection H as <-.
  exists ratio, (snd vega). reflexivity.
Qed.

(** X4.  Whatever the pricer answers and whatever is passed as floor, a loss
    that [loss_function] returns is never below zero: it is a non-negative
    number, +infinity or NaN. *)
Theorem loss_is_never_negative :
  forall S0 vanilla_price (x : list F) (df : DataFrame)
         (market_prices vega_floor : pyarg) (v : F),
    loss_function S0 vanilla_price x df market_prices vega_floor = Some v ->
    flt v (Fin (Q2Qc 0)) = false.
Proof.
  intros S0 vanilla_price x df mp floor v H.
  destruct (loss_function_value _ _ _ _ _ _ _ H) as [ratio [series Hv]].
  rewrite Hv. fold (not_negative (if series then series_mean (map fsquare ratio)
                                   else np_mean (map fsquare ratio))).
  assert (Sq : Forall (fun v => not_negative v) (map fsquare ratio)).
  { apply Forall_forall. intros w Hw. apply in_map_iff in Hw.
    destruct Hw as [a [<- _]]. apply fsquare_not_negative. }
  destruct series; [|now apply np_mean_not_negative].
  unfold series_mean. apply np_mean_not_negative.
  apply Forall_forall. intros w Hw. unfold dropna in Hw. apply filter_In in Hw.
  rewrite Forall_forall in Sq. now apply Sq.
Qed.

Lemma loss_is_never_negative_witness :
  flt (Examples.frac 1 4) (Fin (Q2Qc 0)) = false.
Proof.
  apply (loss_is_never_negative Examples.spot Examples.flat_price Examples.inside_box
           Examples.one_quote (option_args Examples.spot Examples.one_quote)
           (ArgArray (mkt_arr Examples.one_quote))).
  by_evaluation.
Defined.

(** X5.  On an empty table the loop makes no call to the pricer and the loss
    is the mean of an empty array, NaN, for every parameter vector; the
    differential-evolution callback therefore treats every generation as
    non-improving. *)
Theorem empty_table_loss_is_nan :
  forall S0 vanilla_price (x : list F) (market_prices : pyarg) (floor : F),
    loss_function_run S0 vanilla_price x [] market_prices (ArgFloat floor)
    = Some (NaN, [])
    /\ objective S0 vanilla_price [] x = Some NaN
    /\ forall h elapsed st,
         option_map (fun r => fst (fst r))
           (callback_ga S0 vanilla_price h [] x elapsed st)
         = Some {| best := best st; best_x := best_x st; iters := iters st + 1;
                   stale := stale st + 1 |}.
Proof.
  intros S0 vanilla_price x mp floor. split; [reflexivity|]. split; [reflexivity|].
  intros h elapsed st.
  change (callback_ga S0 vanilla_price h [] x elapsed st)
    with (Some (callback_ga_body h x NaN elapsed st)).
  cbn [option_map]. f_equal.
Qed.

(** ** The loss the L-BFGS-B callback records *)

Lemma fadd_not_nan (a b : F) :
  is_nan (fadd a b) = false -> is_nan a = false /\ is_nan b = false.
Proof. destruct a, b; simpl; intros H; split; congruence. Qed.

Lemma fold_fadd_not_nan (l : list F) : forall a,
  is_nan (fold_left fadd l a) = false ->
  is_nan a = false /\ Forall (fun v => is_nan v = false) l.
Proof.
  induction l as [|v t IH]; intros a H; [now split|].
  cbn [fold_left] in H. destruct (IH _ H) as [Hav Ht].
  apply fadd_not_nan in Hav. destruct Hav as [Ha Hv]. split; [exact Ha|].
  now constructor.
Qed.

Lemma np_mean_not_nan (l : list F) :
  is_nan (np_mean l) = false -> dropna l = l.
Proof.
  unfold np_mean. intros H.
  assert (Hs : is_nan (np_sum l) = false)
    by (destruct (np_sum l); try reflexivity; simpl in H; discriminate H).
  apply fold_fadd_not_nan in Hs. destruct Hs as [_ Hall]. unfold dropna. clear H.
  induction Hall as [|v t Hv Ht IH]; [reflexivity|].
  cbn [filter]. rewrite Hv. cbn [negb]. now rewrite IH.
Qed.

(** With the market prices as floor, passed as an array or as a Series: the
    two calls fail together, and when they succeed they average the same
    squares, the first with [np.mean], the second skipping NaN. *)
Lemma array_floor_and_series_floor S0 vanilla_price (x : list F) (df : DataFrame)
    (a b : pyarg) (floors : list F) :
  length floors = length df ->
  match loss_function_run S0 vanilla_price x df a (ArgArray floors) with
  | None => loss_function_run S0 vanilla_price x df b (ArgSeries floors) = None
  | Some (v, calls) =>
      exists sq, v = np_mean sq
                 /\ loss_function_run S0 vanilla_price x df b (ArgSeries floors)
                    = Some (series_mean sq, calls)
  end.
Proof.
  intros H. unfold loss_function_run, floored_vega.
  rewrite broadcast2_same by (now rewrite length_map).
  rewrite H, Nat.eqb_refl. cbn [fst snd].
  destruct (for_each _ _ _) as [st|]; [|reflexivity].
  destruct (all_written _) as [model|]; [|reflexivity].
  destruct (broadcast2 fsub _ _) as [diff|]; [|reflexivity].
  destruct (broadcast2 fdiv _ _) as [ratio|]; [|reflexivity].
  now exists (map fsquare ratio).
Qed.

(** X6.  The L-BFGS-B callback passes the market prices as a Series where
    the objective passes them as an array.  Whenever the objective's value is
    not NaN the callback appends exactly that value to the loss history, and
    numbers the line it prints with the new length of the history; when the
    objective raises, so does the callback. *)
Theorem callback_records_objective :
  forall S0 vanilla_price (df : DataFrame) (params : list F) (elapsed : F)
         (loss_history : list F),
    (forall v,
        objective S0 vanilla_price df params = Some v ->
        is_nan v = false ->
        callback S0 vanilla_price df params elapsed loss_history
        = Some (loss_history ++ [v],
                {| p_iteration := length loss_history + 1; p_elapsed := elapsed;
                   p_loss := v; p_stale := None; p_params := params |}))
    /\ (objective S0 vanilla_price df params = None ->
        callback S0 vanilla_price df params elapsed loss_history = None).
Proof.
  intros S0 vanilla_price df params elapsed hist.
  assert (H := array_floor_and_series_floor S0 vanilla_price params df
                 (option_args S0 df) (option_args S0 df) (map Market_price df)
                 (length_map _ _)).
  unfold objective, callback, loss_function, mkt_arr.
  destruct (loss_function_run S0 vanilla_price params df (option_args S0 df)
              (ArgArray (map Market_price df))) as [[w calls]|].
  - destruct H as [sq [-> Hs]]. rewrite Hs. cbn [option_map fst]. split; [|discriminate].
    intros v Hv Hn. injection Hv as <-.
    unfold series_mean. rewrite (np_mean_not_nan sq Hn).
    rewrite length_app. reflexivity.
  - rewrite H. cbn [option_map]. split; [discriminate|reflexivity].
Qed.

Lemma callback_records_objective_witness :
  callback Examples.spot Examples.flat_price Examples.one_quote Examples.inside_box
    (Examples.num 0) [Examples.num 1]
  = Some ([Examples.num 1] ++ [Examples.frac 1 4],
          {| p_iteration := length [Examples.num 1] + 1; p_elapsed := Examples.num 0;
             p_loss := Examples.frac 1 4; p_stale := None;
             p_params := Examples.inside_box |}).
Proof.
  apply (proj1 (callback_records_objective Examples.spot Examples.flat_price
                  Examples.one_quote Examples.inside_box (Examples.num 0)
                  [Examples.num 1])).
  - by_evaluation.
  - reflexivity.
Defined.

(** ** The batches sent to the pricer *)







Section LoopCalls.

Variable S0 : F.
Variable vanilla_price :
  F -> list F -> F * F * F -> list F -> list option_type -> option Z -> list F.
Variable price1 : F -> F -> F * F * F -> list F -> option_type -> option Z -> F.

Hypothesis pointwise : forall T K op x ot N,
  length K = length ot ->
  vanilla_price T K op x ot N
  = map (fun p => price1 T (fst p) op x (snd p) N) (combine K ot).

Variable x : list F.
Variable df : DataFrame.

Hypothesis no_nan : forall qt, In qt df -> is_nan (To_expiry qt) = false.


End LoopCalls.




(** ** A perfect fit *)

Lemma Qc_of_nat_nonzero (n : nat) :
  n <> 0 -> Qc_eq_bool (Q2Qc (inject_Z (Z.of_nat n))) (Q2Qc 0) = false.
Proof.
  intros Hn. destruct (Qc_eq_bool _ _) eqn:E; [|reflexivity].
  apply Qc_eq_bool_correct in E. apply Q2Qc_eq_iff in E.
  unfold Qeq, inject_Z in E. cbn [Qnum Qden] in E. lia.
Qed.

Lemma Qc_zero_div (y : Qc) : (Q2Qc 0 / y)%Qc = Q2Qc 0.
Proof. unfold Qcdiv. apply Qcmult_0_l. Qed.

Lemma np_sum_zeros (n : nat) : np_sum (repeat (Fin (Q2Qc 0)) n) = Fin (Q2Qc 0).
Proof.
  unfold np_sum. induction n as [|n IH]; [reflexivity|].
  cbn [repeat fold_left fadd]. now rewrite Qcplus_0_l.
Qed.

Lemma np_mean_zeros (n : nat) :
  n <> 0 -> np_mean (repeat (Fin (Q2Qc 0)) n) = Fin (Q2Qc 0).
Proof.
  intros Hn. unfold np_mean, of_nat. rewrite np_sum_zeros, repeat_length.
  cbn [fdiv]. now rewrite (Qc_of_nat_nonzero n Hn), Qc_zero_div.
Qed.

(** The weight of a quote with a positive floor is a non-zero number or
    +infinity whenever the vega is not NaN. *)
Lemma floored_weight (vega : F) (floor : Qc) :
  is_nan vega = false -> (Q2Qc 0 < floor)%Qc ->
  np_maximum1 vega (Fin floor) = PInf
  \/ exists w, np_maximum1 vega (Fin floor) = Fin w /\ (Q2Qc 0 < w)%Qc.
Proof.
  intros Hn Hf. destruct vega as [v| | |]; [| | |discriminate Hn].
  - right. cbn [np_maximum1 flt]. destruct (Qclt_bool v floor) eqn:E.
    + now exists floor.
    + exists v. split; [reflexivity|].
      eapply Qclt_le_trans; [exact Hf|].
      apply Qcnot_lt_le. intros L. apply Qclt_bool_iff in L. congruence.
  - now left.
  - right. now exists floor.
Qed.

Lemma zero_error_term (m vega : F) (floor : Qc) :
  is_finite m = true -> is_nan vega = false -> (Q2Qc 0 < floor)%Qc ->
  fsquare (fdiv (fsub m m) (np_maximum1 vega (Fin floor))) = Fin (Q2Qc 0).
Proof.
  intros Hm Hv Hf. destruct m as [a| | |]; try discriminate Hm.
  cbn [fsub fneg fadd]. rewrite Qcplus_opp_r.
  destruct (floored_weight vega floor Hv Hf) as [->|[w [-> Hw]]].
  - cbn [fdiv fsquare fmul]. now rewrite Qcmult_0_l.
  - cbn [fdiv]. destruct (Qc_eq_bool w (Q2Qc 0)) eqn:E.
    + apply Qc_eq_bool_correct in E. subst. now apply Qclt_not_eq in Hw.
    + rewrite Qc_zero_div. cbn [fsquare fmul]. now rewrite Qcmult_0_l.
Qed.

(** X8.  With a pricer that treats the strikes of a batch one by one, a
    non-empty table without NaN maturity, vegas that are not NaN and a
    positive scalar floor: if the model price of every quote equals its
    (finite) market price, the loss is exactly 0. *)
Theorem perfect_fit_has_zero_loss :
  forall (S0 : F)
         (vanilla_price :
            F -> list F -> F * F * F -> list F -> list option_type -> option Z -> list F)
         (price1 : F -> F -> F * F * F -> list F -> option_type -> option Z -> F)
         (x : list F) (df : DataFrame) (market_prices : pyarg) (floor : Qc),
    (forall T K op y ot N,
        length K = length ot ->
        vanilla_price T K op y ot N
        = map (fun p => price1 T (fst p) op y (snd p) N) (combine K ot)) ->
    (forall qt, In qt df -> is_nan (To_expiry qt) = false) ->
    df <> [] ->
    (Q2Qc 0 < floor)%Qc ->
    (forall qt, In qt df ->
                is_finite (Market_price qt) = true
                /\ is_nan (Vega qt) = false
                /\ batched_price S0 vanilla_price x df qt = Market_price qt) ->
    loss_function S0 vanilla_price x df market_prices (ArgFloat (Fin floor))
    = Some (Fin (Q2Qc 0)).
Proof.
  intros S0 vanilla_price price1 x df mp floor Hpt Hnan Hne Hf Hfit.
  destruct (loss_function_run_formula S0 vanilla_price price1 Hpt x df Hnan mp
              (ArgFloat (Fin floor))) as [calls [_ Hrun]].
  unfold loss_function. rewrite Hrun, aggregate_float by apply length_batched.
  cbn [option_map fst]. f_equal. unfold weighted_mse.
  rewrite <- (map_id df) at 1. rewrite map_combine_map. cbn [fst snd].
  rewrite (map_ext_in _ (fun _ => Fin (Q2Qc 0))).
  - rewrite map_const. apply np_mean_zeros.
    destruct df; [now elim Hne|discriminate].
  - intros qt Hqt. destruct (Hfit qt Hqt) as [Hm [Hv ->]].
    now apply zero_error_term.
Qed.

Lemma perfect_fit_has_zero_loss_witness :
  loss_function Examples.spot Examples.toy_price Examples.inside_box
    Examples.fitted_quote (ArgFloat NaN) (ArgFloat lit_1e_12)
  = Some (Fin (Q2Qc 0)).
Proof.
  apply (perfect_fit_has_zero_loss Examples.spot Examples.toy_price
           Examples.toy_price1).
  - exact toy_price_pointwise.
  - intros qt [<-|[]]. reflexivity.
  - discriminate.
  - reflexivity.
  - intros qt [<-|[]]. split; [reflexivity|]. split; [reflexivity|].
    apply Fin_canon. reflexivity.
Defined.

(** ** Which quote seeds the search *)

Lemma flt_total (a b : F) :
  is_nan a = false -> is_nan b = false -> flt a b = false ->
  a = b \/ flt b a = true.
Proof.
  intros Ha Hb H. destruct (same_value a b) eqn:E.
  - left. now apply same_value_eq.
  - right. assert (S : sorts_before b a = true).
    { apply sorts_before_total; [exact E|].
      unfold sorts_before. now rewrite H, Hb, andb_false_r. }
    unfold sorts_before in S. now rewrite Ha, andb_false_r, orb_false_r in S.
Qed.

Lemma idxmin_from_first (l : list F) : forall pre acc,
  idxmin_good pre acc -> idxmin_first pre acc ->
  idxmin_first (pre ++ l) (idxmin_from (length pre) l acc).
Proof.
  induction l as [|v t IH]; intros pre acc G H; cbn [idxmin_from].
  - now rewrite app_nil_r.
  - assert (G' := idxmin_from_good [v] pre acc G). cbn [idxmin_from] in G'.
    replace (pre ++ v :: t) with ((pre ++ [v]) ++ t) by now rewrite <- app_assoc.
    replace (S (length pre)) with (length (pre ++ [v]))
      by (rewrite length_app; simpl; lia).
    apply IH; [exact G'|]. clear G' IH.
    assert (Old : forall i m, idxmin_first pre (Some (i, m)) -> i < length pre ->
                              idxmin_first (pre ++ [v]) (Some (i, m))).
    { intros i m Hf Hi j w Hj Hw. apply (Hf j w Hj).
      rewrite nth_error_app1 in Hw by lia. exact Hw. }
    assert (New : (forall w, In w pre -> is_nan w = true \/ flt v w = true) ->
                  idxmin_first (pre ++ [v]) (Some (length pre, v))).
    { intros Hall j w Hj Hw. rewrite nth_error_app1 in Hw by lia.
      apply Hall. eapply nth_error_In; exact Hw. }
    destruct (is_nan v) eqn:Ev.
    + destruct acc as [[i m]|]; [|exact I].
      apply Old; [exact H|]. destruct G as [Hn _]. apply nth_error_Some. congruence.
    + destruct acc as [[i m]|].
      * destruct G as [Hn [Hm Hall]]. destruct (flt v m) eqn:E.
        -- apply New. intros w Hw. destruct (is_nan w) eqn:Ew; [now left|right].
           destruct (flt_total w m Ew Hm (Hall w Hw)) as [->|L]; [exact E|].
           eapply flt_trans; eassumption.
        -- apply Old; [exact H|]. apply nth_error_Some. congruence.
      * apply New. intros w Hw. left. now apply G.
Qed.

Lemma idxmin_first_spec (l : list F) (i : nat) :
  idxmin l = Some i ->
  exists m, nth_error l i = Some m /\ is_nan m = false
            /\ (forall v, In v l -> flt v m = false)
            /\ (forall j w, j < i -> nth_error l j = Some w ->
                            is_nan w = true \/ flt m w = true).
Proof.
  assert (Gd := idxmin_from_good l [] None
                  (fun v (Hv : In v []) => match Hv with end)).
  assert (Fst := idxmin_from_first l [] None
                   (fun v (Hv : In v []) => match Hv with end) I).
  cbn [app length] in Gd, Fst. unfold idxmin. intros H.
  destruct (idxmin_from 0 l None) as [[i' m]|]; [|discriminate].
  cbn [option_map fst] in H. injection H as ->.
  destruct Gd as [Hn [Hm Hall]]. exists m. repeat split; trivial.
Qed.

(** X9.  The seeding uses the first of the rows closest to spot: the row
    whose distance [|Strike - S0|] is not NaN, that no row is strictly
    closer than, and before which every row is strictly farther or has a NaN
    distance.  It raises exactly when there is no such row (every distance
    is NaN, in particular on the empty table) or when the square of that
    row's implied volatility overflows; otherwise the seed is
    [[max(1e-6, iv ** 2), 3, max(1e-6, iv ** 2), 0.5, -0.5, 0]] for that
    row's [iv]. *)
Theorem seed_row_selection :
  forall (S0 : F) (df : DataFrame),
    let dist := fun qt => fabs (fsub (Strike qt) S0) in
    let chosen := fun i qt =>
      nth_error df i = Some qt
      /\ is_nan (dist qt) = false
      /\ (forall qt', In qt' df -> flt (dist qt') (dist qt) = false)
      /\ (forall j qt', j < i -> nth_error df j = Some qt' ->
                        is_nan (dist qt') = true \/ flt (dist qt) (dist qt') = true) in
    (x0_seed S0 df = None
     <-> (forall qt, In qt df -> is_nan (dist qt) = true)
         \/ (exists i qt, chosen i qt /\ py_pow2 (IV qt) = None))
    /\ (forall x0, x0_seed S0 df = Some x0 ->
          exists i qt iv_squared,
            chosen i qt
            /\ py_pow2 (IV qt) = Some iv_squared
            /\ x0 = [py_max lit_1e_6 iv_squared; Fin (Q2Qc 3);
                     py_max lit_1e_6 iv_squared; Fin (Q2Qc (1 # 2));
                     Fin (Q2Qc (-1 # 2)); Fin (Q2Qc 0)]).
Proof.
  intros S0 df dist chosen.
  assert (Some_case : forall i, idxmin (map dist df) = Some i ->
            exists qt, chosen i qt).
  { intros i Hi. destruct (idxmin_first_spec _ _ Hi) as [m [Hn [Hm [Hall Hfst]]]].
    rewrite nth_error_map in Hn.
    destruct (nth_error df i) as [qt|] eqn:Eq; [|discriminate].
    injection Hn as <-. exists qt. repeat split; trivial.
    - intros qt' Hin. apply Hall. now apply in_map.
    - intros j qt' Hj Hq. apply (Hfst j (dist qt') Hj).
      now rewrite nth_error_map, Hq. }
  assert (Unique : forall i qt j qt', chosen i qt -> chosen j qt' -> i = j).
  { assert (Lt : forall i qt j qt', chosen i qt -> chosen j qt' -> ~ i < j).
    { intros i qt j qt' [Hi [Hn [Hmin _]]] [Hj [_ [_ Hfst]]] L.
      destruct (Hfst i qt L Hi) as [C|C]; [congruence|].
      rewrite (Hmin qt' (nth_error_In _ _ Hj)) in C. discriminate. }
    intros i qt j qt' Hi Hj.
    pose proof (Lt i qt j qt' Hi Hj). pose proof (Lt j qt' i qt Hj Hi). lia. }
  rewrite x0_seed_unfold. fold dist.
  destruct (idxmin (map dist df)) as [i|] eqn:Ei.
  - destruct (Some_case i eq_refl) as [qt Hc].
    assert (Hq : nth_error df i = Some qt) by apply Hc. rewrite Hq. split.
    + split.
      * intros H. right. exists i, qt. split; [exact Hc|].
        now destruct (py_pow2 (IV qt)).
      * intros [Hall|[j [qt' [Hc' Hov]]]].
        -- destruct Hc as [_ [Hn _]].
           rewrite (Hall qt (nth_error_In _ _ Hq)) in Hn. discriminate.
        -- assert (E : i = j) by (eapply Unique; eassumption). subst j.
           assert (E : qt = qt') by (destruct Hc' as [Hq' _]; congruence). subst qt'.
           now rewrite Hov.
    + intros x0 Hx. destruct (py_pow2 (IV qt)) as [s|] eqn:Es; [|discriminate].
      injection Hx as <-. exists i, qt, s. split; [exact Hc|split; [exact Es|reflexivity]].
  - split; [|discriminate]. split; [|reflexivity]. intros _. left. intros qt Hqt.
    assert (Sp := idxmin_spec (map dist df)). rewrite Ei in Sp.
    apply Sp. now apply in_map.
Qed.

(** X9, at a concrete input: two rows 5 away from the spot on either side;
    the first one seeds the search ([iv = 0.2], [v0 = 0.04]). *)
Lemma seed_row_selection_witness :
  exists i qt iv_squared,
    (nth_error Examples.tied_quotes i = Some qt
     /\ is_nan (fabs (fsub (Strike qt) Examples.spot)) = false
     /\ (forall qt', In qt' Examples.tied_quotes ->
                     flt (fabs (fsub (Strike qt') Examples.spot))
                         (fabs (fsub (Strike qt) Examples.spot)) = false)
     /\ (forall j qt', j < i -> nth_error Examples.tied_quotes j = Some qt' ->
                       is_nan (fabs (fsub (Strike qt') Examples.spot)) = true
                       \/ flt (fabs (fsub (Strike qt) Examples.spot))
                              (fabs (fsub (Strike qt') Examples.spot)) = true))
    /\ py_pow2 (IV qt) = Some iv_squared
    /\ [Examples.frac 1 25; Fin (Q2Qc 3); Examples.frac 1 25; Fin (Q2Qc (1 # 2));
        Fin (Q2Qc (-1 # 2)); Fin (Q2Qc 0)]
       = [py_max lit_1e_6 iv_squared; Fin (Q2Qc 3);
          py_max lit_1e_6 iv_squared; Fin (Q2Qc (1 # 2));
          Fin (Q2Qc (-1 # 2)); Fin (Q2Qc 0)].
Proof.
  apply (proj2 (seed_row_selection Examples.spot Examples.tied_quotes)).
  vm_compute. repeat f_equal; apply Qc_is_canon; reflexivity.
Defined.

(** ** The table handed to the optimizers *)

Lemma np_maximum1_cases (v m : F) :
  np_maximum1 v m = NaN
  \/ np_maximum1 v m = m
  \/ (np_maximum1 v m = v /\ flt v m = false).
Proof.
  destruct v as [a| | |], m as [b| | |]; cbn [np_maximum1]; auto;
    match goal with
    | |- context [if ?c then _ else _] => destruct c eqn:E; auto
    end.
Qed.

Lemma positive_weight (v m : F) :
  flt (Fin (Q2Qc 0)) m = true ->
  feq (np_maximum1 v m) (Fin (Q2Qc 0)) = false.
Proof.
  intros Hm. destruct (feq (np_maximum1 v m) (Fin (Q2Qc 0))) eqn:E; [|reflexivity].
  apply feq_eq in E. exfalso.
  destruct (np_maximum1_cases v m) as [H|[H|[H L]]]; rewrite H in E.
  - discriminate.
  - rewrite E in Hm. now rewrite flt_irrefl in Hm.
  - rewrite E in L. congruence.
Qed.

(** X11.  Every quote of the table the optimizers work on has passed the
    three filters and carries the derived columns: implied volatility, call
    price and put price are strictly positive, the moneyness lies in
    [[0.8, 1.2]], the side is call exactly when the moneyness is at least 1,
    and the market price is the price of that side, hence strictly positive.
    So the weight [max(vega, market price)] that the optimizers' objective
    divides by is never zero.  The table has at most as many quotes as the
    input has rows. *)
Theorem prepared_quotes_are_filtered :
  forall (rows : list row),
    length (prepared rows) <= length rows
    /\ forall qt, In qt (prepared rows) ->
         fgt (IV qt) (Fin (Q2Qc 0)) = true
         /\ fgt (Market_call_price qt) (Fin (Q2Qc 0)) = true
         /\ fgt (Market_put_price qt) (Fin (Q2Qc 0)) = true
         /\ fge (Moneyness qt) mn_low = true
         /\ fle (Moneyness qt) mn_high = true
         /\ (Option_type qt = call <-> fge (Moneyness qt) (Fin (Q2Qc 1)) = true)
         /\ Market_price qt
            = match Option_type qt with
              | call => Market_call_price qt
              | put => Market_put_price qt
              end
         /\ fgt (Market_price qt) (Fin (Q2Qc 0)) = true
         /\ feq (np_maximum1 (Vega qt) (Market_price qt)) (Fin (Q2Qc 0)) = false.
Proof.
  intros rows. split.
  - unfold prepared. rewrite length_map.
    eapply Nat.le_trans; [apply filter_length_le|].
    eapply Nat.le_trans; [apply filter_length_le|]. apply filter_length_le.
  - intros qt Hqt. unfold prepared in Hqt. apply in_map_iff in Hqt.
    destruct Hqt as [rw [<- Hrw]].
    apply filter_In in Hrw. destruct Hrw as [Hrw Hband].
    apply filter_In in Hrw. destruct Hrw as [Hrw Hpos].
    apply filter_In in Hrw. destruct Hrw as [_ Hiv].
    unfold in_band in Hband. apply andb_true_iff in Hband. destruct Hband as [Hlo Hhi].
    unfold positive_prices in Hpos. apply andb_true_iff in Hpos.
    destruct Hpos as [Hput Hcall].
    unfold prepare.
    cbn [IV Market_call_price Market_put_price Moneyness Option_type Market_price Vega].
    assert (Hmp : fgt (if fge (r_Moneyness rw) (Fin (Q2Qc 1))
                       then r_Market_call_price rw else r_Market_put_price rw)
                      (Fin (Q2Qc 0)) = true)
      by (destruct (fge (r_Moneyness rw) (Fin (Q2Qc 1))); assumption).
    repeat split; trivial.
    + destruct (fge (r_Moneyness rw) (Fin (Q2Qc 1))); [reflexivity|discriminate].
    + destruct (fge (r_Moneyness rw) (Fin (Q2Qc 1))); [reflexivity|discriminate].
    + destruct (fge (r_Moneyness rw) (Fin (Q2Qc 1))); reflexivity.
    + apply positive_weight. exact Hmp.
Qed.

(** X11, at a concrete input: the row of [put_above_parity], an
    at-the-money quote, is kept as a call. *)
Lemma prepared_quotes_are_filtered_witness :
  Forall (fun qt =>
            fgt (Market_price qt) (Fin (Q2Qc 0)) = true
            /\ feq (np_maximum1 (Vega qt) (Market_price qt)) (Fin (Q2Qc 0)) = false)
    (prepared Examples.put_above_parity).
Proof.
  apply Forall_forall. intros qt Hqt.
  destruct (proj2 (prepared_quotes_are_filtered Examples.put_above_parity) qt Hqt)
    as [_ [_ [_ [_ [_ [_ [_ [H1 H2]]]]]]]].
  now split.
Defined.

(** ** What the market parity check tests *)

Lemma np_maximum1_not_nan (a v : F) :
  is_nan a = false -> is_nan v = false ->
  np_maximum1 a v = (if flt a v then v else a).
Proof. destruct a, v; simpl; congruence. Qed.

Lemma max_below (a v c : F) :
  is_nan a = false -> is_nan v = false ->
  flt (if flt a v then v else a) c = flt a c && flt v c.
Proof.
  intros Ha Hv. destruct (flt a v) eqn:L.
  - destruct (flt v c) eqn:Lv.
    + now rewrite (flt_trans a v c L Lv).
    + now rewrite andb_false_r.
  - destruct (flt_total a v Ha Hv L) as [->|G].
    + now destruct (flt v c).
    + destruct (flt a c) eqn:La; [|reflexivity].
      now rewrite (flt_trans v a c G La).
Qed.

Lemma fold_max_below (t : list F) (c : F) : forall a,
  is_nan a = false -> Forall (fun v => is_nan v = false) t ->
  flt (fold_left np_maximum1 t a) c = flt a c && forallb (fun v => flt v c) t.
Proof.
  induction t as [|v t IH]; intros a Ha Ht; cbn [fold_left forallb].
  - now rewrite andb_true_r.
  - inversion Ht as [|? ? Hv Ht']; subst.
    rewrite (np_maximum1_not_nan a v Ha Hv), IH; trivial.
    + rewrite max_below by assumption. now rewrite andb_assoc.
    + destruct (flt a v); assumption.
Qed.

Lemma series_max_below (l : list F) (c : F) :
  flt (series_max l) c = true
  <-> (exists v, In v l /\ is_nan v = false)
      /\ (forall v, In v l -> is_nan v = true \/ flt v c = true).
Proof.
  unfold series_max.
  assert (Hd : Forall (fun v => is_nan v = false) (dropna l)).
  { apply Forall_forall. intros v Hv. unfold dropna in Hv. apply filter_In in Hv.
    destruct Hv as [_ Hv]. now apply negb_true_iff in Hv. }
  assert (Hin : forall v, In v (dropna l) <-> In v l /\ is_nan v = false).
  { intros v. unfold dropna. rewrite filter_In, negb_true_iff. reflexivity. }
  destruct (dropna l) as [|a t] eqn:E; cbn [np_max].
  - split; [discriminate|]. intros [[v Hv] _]. apply Hin in Hv. destruct Hv.
  - inversion Hd as [|? ? Ha Ht]; subst.
    rewrite fold_max_below, andb_true_iff, forallb_forall by assumption. split.
    + intros [La Lt]. split.
      * exists a. apply Hin. now left.
      * intros v Hv. destruct (is_nan v) eqn:Ev; [now left|right].
        assert (Hv' : In v (a :: t)) by (apply Hin; now split).
        destruct Hv' as [<-|Hv']; [exact La|now apply Lt].
    + intros [_ Hall]. split.
      * assert (Ha' : In a l /\ is_nan a = false) by (apply Hin; now left).
        destruct (Hall a (proj1 Ha')) as [C|C]; [congruence|exact C].
      * intros v Hv.
        assert (Hv' : In v l /\ is_nan v = false) by (apply Hin; now right).
        destruct (Hall v (proj1 Hv')) as [C|C]; [|exact C].
        rewrite (proj2 Hv') in C. discriminate.
Qed.

(** X12.  The market parity check prints [True] exactly when some row has a
    difference [put - (call + K e^(-rT) - S0 e^(-qT))] that is not NaN and
    every such difference is below 1e-10.  Rows whose difference is NaN are
    passed over, differences are compared with their sign, and on a table
    without rows the check prints [False]. *)
Theorem market_parity_check_meaning :
  forall (S0 : F) (np_exp : F -> F) (rows : list row),
    let diff := fun rw =>
      fsub (r_Market_put_price rw) (market_put_price_CP S0 np_exp rw) in
    (market_parity_check S0 np_exp rows = true
     <-> (exists rw, In rw rows /\ is_nan (diff rw) = false)
         /\ (forall rw, In rw rows ->
               is_nan (diff rw) = true \/ flt (diff rw) lit_1e_10 = true))
    /\ market_parity_check S0 np_exp [] = false.
Proof.
  intros S0 np_exp rows diff. split; [|reflexivity].
  unfold market_parity_check. fold diff. rewrite series_max_below. split.
  - intros [[v [Hv Hn]] Hall]. apply in_map_iff in Hv. destruct Hv as [rw [<- Hrw]].
    split; [now exists rw|].
    intros rw' Hrw'. apply Hall. now apply in_map.
  - intros [[rw [Hrw Hn]] Hall]. split.
    + exists (diff rw). split; [now apply in_map|exact Hn].
    + intros v Hv. apply in_map_iff in Hv. destruct Hv as [rw' [<- Hrw']].
      now apply Hall.
Qed.

(** ** The box *)

Lemma between_finite (lo hi : Qc) (v : F) :
  fle (Fin lo) v && fle v (Fin hi) = true -> is_finite v = true.
Proof. destruct v; cbn; try reflexivity; intros H; discriminate. Qed.

Lemma pinned (c v : F) : fle c v && fle v c = true -> v = c.
Proof.
  unfold fle. intros H. apply andb_true_iff in H. destruct H as [H1 H2].
  apply orb_true_iff in H1. apply orb_true_iff in H2.
  destruct H2 as [H2|H2]; [|now apply feq_eq].
  destruct H1 as [H1|H1]; [|symmetry; now apply feq_eq].
  pose proof (flt_trans c v c H1 H2) as C. rewrite flt_irrefl in C. discriminate.
Qed.

(** X13.  A vector inside the box has six coordinates, all of them finite
    numbers, and its last one, lambda, is exactly 0. *)
Theorem box_pins_lambda :
  forall x : list F,
    in_box x bounds = true ->
    length x = 6
    /\ Forall (fun v => is_finite v = true) x
    /\ nth_error x 5 = Some (Fin (Q2Qc 0)).
Proof.
  intros x H. unfold in_box in H. apply andb_true_iff in H. destruct H as [Hlen H].
  apply Nat.eqb_eq in Hlen. cbn [bounds length] in Hlen.
  destruct x as [|v0 [|kappa [|theta [|sigma [|rho [|lambda [|]]]]]]];
    try discriminate Hlen.
  unfold bounds in H. cbn [combine forallb fst snd] in H.
  apply andb_true_iff in H. destruct H as [B0 H].
  apply andb_true_iff in H. destruct H as [B1 H].
  apply andb_true_iff in H. destruct H as [B2 H].
  apply andb_true_iff in H. destruct H as [B3 H].
  apply andb_true_iff in H. destruct H as [B4 H].
  apply andb_true_iff in H. destruct H as [B5 _].
  unfold lit_1e_4 in *.
  split; [reflexivity|]. split.
  - repeat constructor; eapply between_finite; eassumption.
  - cbn [nth_error]. f_equal. now apply pinned.
Qed.

Lemma box_pins_lambda_witness :
  length Examples.inside_box = 6
  /\ Forall (fun v => is_finite v = true) Examples.inside_box
  /\ nth_error Examples.inside_box 5 = Some (Fin (Q2Qc 0)).
Proof.
  apply (box_pins_lambda Examples.inside_box). reflexivity.
Defined.

(** ** Patience *)

Lemma stale_after_step (h : hyper) (xk : list F) (cur elapsed : F) (st : state) :
  stale (fst (fst (callback_ga_body h xk cur elapsed st))) <= stale st + 1.
Proof.
  destruct (improved_test h (best st) cur) eqn:E.
  - rewrite (callback_ga_body_accept h xk cur elapsed st E). cbn [stale]. lia.
  - rewrite (callback_ga_body_reject h xk cur elapsed st E). cbn [stale]. lia.
Qed.

Lemma feed_below_patience (h : hyper) (inputs : list (list F * F * F)) : forall st,
  MAX_SECONDS_CB h = None ->
  stale st + length inputs < PATIENCE_CB h ->
  snd (feed h st inputs) = repeat false (length inputs).
Proof.
  induction inputs as [|[[xk cur] elapsed] t IH]; intros st Hb Hlen; [reflexivity|].
  rewrite feed_cons. cbn [snd length repeat] in *.
  pose proof (stale_after_step h xk cur elapsed st) as Hs.
  rewrite callback_ga_body_stop, stop_test_no_budget by assumption.
  f_equal.
  - apply andb_false_iff. right. apply Nat.leb_gt. lia.
  - apply IH; [assumption|lia].
Qed.

(** X14.  Without a time budget the callback never asks to stop during the
    first [PATIENCE_CB - 1] generations, whatever the losses: the global
    search always runs at least [PATIENCE_CB] generations (8 with the
    script's settings) unless the optimizer ends by itself. *)
Theorem no_stop_before_patience :
  forall (h : hyper) (inputs : list (list F * F * F)),
    MAX_SECONDS_CB h = None ->
    length inputs < PATIENCE_CB h ->
    snd (feed h state_init inputs) = repeat false (length inputs).
Proof.
  intros h inputs Hb Hlen. apply feed_below_patience; [exact Hb|].
  cbn [stale state_init]. lia.
Qed.

Lemma no_stop_before_patience_witness :
  snd (feed script_hyper state_init
         (repeat (Examples.inside_box, NaN, Examples.num 0) 7))
  = repeat false (length (repeat (Examples.inside_box, NaN, Examples.num 0) 7)).
Proof.
  apply (no_stop_before_patience script_hyper).
  - reflexivity.
  - cbn. lia.
Defined.
